(** * ai-runlevel: the dependency-aware agent supervisor

    A shallow embedding of [ai-runlevel.mjs].  The orchestrator is a
    single-threaded Node.js program: its code runs in atomic sections that
    are delimited by [await].  The embedding therefore has

    - a fuelled function for the sequential Ollama readiness loop of [main],
    - a function [spawnLoop_body] for one pass through the body of the
      [while (true)] loop of [startAgent], from the loop head to the next
      [await],
    - a labelled step function over a global state, one label per event
      that resumes suspended code (a timer firing, a child process
      exiting) or per change of the file system made by the outside world.

    Every atomic section returns the list of effects it performs, in
    program order. *)

From Stdlib Require Import Ascii.
From stdpp Require Import gmap strings list fin_maps pretty.

Local Open Scope string_scope.
Local Open Scope nat_scope.
Local Open Scope list_scope.

#[local] Set Warnings "-clear-no-such-hyp".

(** ** Paths, names and messages *)

(** [path.join] on the segments used by the program, which contain neither
    a separator nor a dot segment: plain concatenation with "/". *)
Definition path_join (dir file : string) : string := dir +:+ "/" +:+ file.

Definition RUNLEVEL_DIR : string := "/home/loop/ai-runlevel".
Definition LOGS_DIR : string := path_join RUNLEVEL_DIR "logs".
Definition SOCKETS_DIR : string := path_join RUNLEVEL_DIR "sockets".
Definition OLLAMA_LATCH : string := path_join SOCKETS_DIR "ollama_ready.latch".
Definition RUNLEVEL_LATCH : string := path_join SOCKETS_DIR "runlevel.latch".

(** [String.prototype.toLowerCase] on ASCII text. *)
Definition lower_ascii (c : Ascii.ascii) : Ascii.ascii :=
  let n := Ascii.N_of_ascii c in
  if ((65 <=? n) && (n <=? 90))%N then Ascii.ascii_of_N (n + 32) else c.

Fixpoint toLowerCase (s : string) : string :=
  match s with
  | EmptyString => EmptyString
  | String c rest => String (lower_ascii c) (toLowerCase rest)
  end.

(** [const script = path.join(RUNLEVEL_DIR, `nexus-${agentName.toLowerCase()}.mjs`)] *)
Definition script_of (agentName : string) : string :=
  path_join RUNLEVEL_DIR ("nexus-" +:+ toLowerCase agentName +:+ ".mjs").

Definition logFile_of (agentName : string) : string :=
  path_join LOGS_DIR (agentName +:+ ".log").

(** An exit code as the 'exit' event delivers it: a number, or [null] when
    the child was terminated by a signal. *)
Definition show_code (code : option N) : string :=
  match code with
  | Some n => pretty n
  | None => "null"
  end.

Definition msg_script_missing (agentName script : string) : string :=
  "[" +:+ agentName +:+ "] Script missing: " +:+ script +:+ ". Retrying in 5s...".

Definition msg_starting (agentName : string) : string :=
  "[" +:+ agentName +:+ "] Starting...".

Definition msg_exited (agentName : string) (code : option N) : string :=
  "[" +:+ agentName +:+ "] Exited with code " +:+ show_code code
      +:+ ". Restarting in 2s...".

(** ** The dependency table *)

(** A JavaScript object with string keys and array values, as the list of
    its own properties in insertion order. *)
Definition jsobject : Type := list (string * list string).

(** [obj[key]]: [None] stands for [undefined]. *)
Fixpoint obj_get (obj : jsobject) (key : string) : option (list string) :=
  match obj with
  | [] => None
  | (k, v) :: rest => if decide (k = key) then Some v else obj_get rest key
  end.

(** [Object.keys(obj)] *)
Definition obj_keys (obj : jsobject) : list string := obj.*1.

(** ** Effects *)

Inductive effect : Type :=
  | ConsoleLog (msg : string)
  | ConsoleError (msg : string)
  | HttpGet (ok : bool)
  | ExistsSync (p : string) (r : bool)
  | MkdirSync (p : string)
  | WriteFileSync (p content : string)
  | CreateWriteStream (p : string)
  | Sleep (ms : N)
  | Spawn (pid : nat) (script agentName : string)
  | SetAdd (agentName : string)
  | SetDelete (agentName : string)
  | ThrowTypeError.

Global Instance effect_eq_dec : EqDecision effect.
Proof. solve_decision. Defined.

(** ** State *)

(** Where a [spawnLoop] is suspended. *)
Inductive pc : Type :=
  | AwaitSleep (ms : N)      (* [await sleep(ms)], or the exit promise after
                                [setTimeout(resolve, ms)] *)
  | AwaitExit (pid : nat)    (* the exit promise, before the 'exit' event *)
  | Rejected.                (* the async function threw *)

Global Instance pc_eq_dec : EqDecision pc.
Proof. solve_decision. Defined.

Record state : Type := State {
  fs : gset string;                 (* paths that exist *)
  startedAgents : gset string;      (* [const startedAgents = new Set()] *)
  loops : list (string * pc);       (* one entry per call of [startAgent] *)
  children : gmap nat string;       (* live child handles, with AGENT_NAME *)
  next_pid : nat                    (* identity of the next child handle *)
}.

Definition set_loops (ls : list (string * pc)) (s : state) : state :=
  State (fs s) (startedAgents s) ls (children s) (next_pid s).

Definition set_fs (f : gset string) (s : state) : state :=
  State f (startedAgents s) (loops s) (children s) (next_pid s).

(** ** The supervisor loop *)

(** [deps.every(dep => startedAgents.has(dep))] *)
Definition all_deps_started (deps : list string) (live : gset string) : bool :=
  forallb (λ dep, bool_decide (dep ∈ live)) deps.

Section Supervisor.

Variable DEPENDENCIES : jsobject.

Definition AGENTS : list string := obj_keys DEPENDENCIES.

(** One pass through the body of [while (true)] in [spawnLoop], from the
    loop head to the next [await].  Returns where the loop is suspended,
    the new state, and the effects.  [DEPENDENCIES[agentName]] is
    [undefined] for a name that is not a key, and [deps.every] then throws.
    [spawn] hands back a child handle; the piping of the child's output
    into the log stream and the console leaves the state alone. *)
Definition spawnLoop_body (agentName : string) (s : state)
  : pc * state * list effect :=
  match obj_get DEPENDENCIES agentName with
  | None => (Rejected, s, [ThrowTypeError])
  | Some deps =>
      let allDepsStarted := all_deps_started deps (startedAgents s) in
      if negb allDepsStarted then
        (AwaitSleep 1000, s, [Sleep 1000%N])
      else
        let script := script_of agentName in
        if negb (bool_decide (script ∈ fs s)) then
          (AwaitSleep 5000, s,
           [ExistsSync script false;
            ConsoleError (msg_script_missing agentName script);
            Sleep 5000%N])
        else
          let pid := next_pid s in
          (AwaitExit pid,
           State (fs s) ({[agentName]} ∪ startedAgents s) (loops s)
                 (<[pid := agentName]> (children s)) (S pid),
           [ExistsSync script true;
            ConsoleLog (msg_starting agentName);
            Spawn pid script agentName;
            CreateWriteStream (logFile_of agentName);
            SetAdd agentName])
  end.

(** [startAgent(agentName)]: creates the loop and runs it up to its first
    [await]. *)
Definition startAgent (agentName : string) (s : state) : state * list effect :=
  let '(p, s', effs) := spawnLoop_body agentName s in
  (set_loops (loops s' ++ [(agentName, p)]) s', effs).

(** The 'exit' listener resolves the promise the spawning loop awaits, two
    seconds later. *)
Definition on_exit (pid : nat) (l : string * pc) : string * pc :=
  if decide (l.2 = AwaitExit pid) then (l.1, AwaitSleep 2000) else l.

Inductive label : Type :=
  | TimerFires (i : nat)                 (* the timer loop [i] waits on *)
  | ProcExit (pid : nat) (code : option N)
  | EnvCreate (p : string)               (* the outside world adds a path *)
  | EnvRemove (p : string).              (* ... or removes one *)

Definition step (s : state) (l : label) : option (state * list effect) :=
  match l with
  | TimerFires i =>
      match loops s !! i with
      | Some (agentName, AwaitSleep _) =>
          let '(p, s', effs) := spawnLoop_body agentName s in
          Some (set_loops (<[i := (agentName, p)]> (loops s')) s', effs)
      | _ => None
      end
  | ProcExit pid code =>
      match children s !! pid with
      | Some agentName =>
          Some (State (fs s) (startedAgents s ∖ {[agentName]})
                      (on_exit pid <$> loops s)
                      (delete pid (children s)) (next_pid s),
                [ConsoleLog (msg_exited agentName code);
                 SetDelete agentName;
                 Sleep 2000%N])
      | None => None
      end
  | EnvCreate p => Some (set_fs ({[p]} ∪ fs s) s, [])
  | EnvRemove p => Some (set_fs (fs s ∖ {[p]}) s, [])
  end.

End Supervisor.

(** ** The boot sequence *)

Definition msg_init : string :=
  "[ai-runlevel] Initializing systemd-like environment for WSL1...".
Definition msg_waiting : string := "[ai-runlevel] Waiting for Ollama signal...".
Definition msg_not_ready : string :=
  "[ai-runlevel] Ollama not ready. Checking /run/ollama.sock or " +:+ OLLAMA_LATCH.
Definition msg_timeout : string :=
  "[ai-runlevel] Ollama timeout. Creating placeholder latch to proceed...".
Definition msg_detected : string := "[ai-runlevel] Ollama signal detected.".
Definition msg_running (n : nat) : string :=
  "[ai-runlevel] Orchestrator running. Managing " +:+ pretty n +:+ " agents.".

(** The directories [fs.mkdirSync(dir, { recursive: true })] creates: [dir]
    and every ancestor of it. *)
Fixpoint ancestors_from (seen rest : string) : list string :=
  match rest with
  | EmptyString => [seen]
  | String c rest' =>
      let here := if decide (c = "/"%char ∧ seen ≠ "") then [seen] else [] in
      here ++ ancestors_from (seen +:+ String c "") rest'
  end.

Definition mkdirSync_recursive (dir : string) (f : gset string) : gset string :=
  list_to_set (ancestors_from "" dir) ∪ f.

(** The body of [[LOGS_DIR, SOCKETS_DIR].forEach(dir => ...)]. *)
Definition ensure_dir (acc : gset string * list effect) (dir : string)
  : gset string * list effect :=
  let '(f, effs) := acc in
  if bool_decide (dir ∈ f) then (f, effs ++ [ExistsSync dir true])
  else (mkdirSync_recursive dir f, effs ++ [ExistsSync dir false; MkdirSync dir]).

Definition module_init (f : gset string) : gset string * list effect :=
  foldl ensure_dir (f, []) [LOGS_DIR; SOCKETS_DIR].

(** [checkOllamaReady()], given the outcome of the HTTP health check: the
    latch file is consulted only when the request fails. *)
Definition checkOllamaReady (httpOk : bool) (f : gset string) : bool * list effect :=
  if httpOk then (true, [HttpGet true])
  else
    let r := bool_decide (OLLAMA_LATCH ∈ f) in
    (r, [HttpGet false; ExistsSync OLLAMA_LATCH r]).

Record gate_result : Type := GateResult {
  gate_fs : gset string;         (* the file system when the loop is left *)
  gate_calls : nat;              (* calls of [checkOllamaReady] made *)
  gate_retries : nat;            (* final value of [retries] *)
  gate_effects : list effect
}.

(** Phase 1 of [main]: [while (!(await checkOllamaReady())) { ... }].
    [http k] is the outcome of the HTTP request of call number [k] (from 0);
    [calls] counts the calls already made. *)
Fixpoint main_gate (http : nat → bool) (fuel calls retries : nat) (f : gset string)
  : option gate_result :=
  match fuel with
  | 0 => None
  | S fuel' =>
      let '(ready, e1) := checkOllamaReady (http calls) f in
      if ready then Some (GateResult f (S calls) retries e1)
      else
        let e2 := if decide (retries mod 10 = 0) then [ConsoleLog msg_not_ready] else [] in
        let retries' := S retries in
        let '(f', e3) :=
          if decide (15 < retries')
          then ({[OLLAMA_LATCH]} ∪ f,
                [ConsoleLog msg_timeout; WriteFileSync OLLAMA_LATCH "LATCH_BYPASS"])
          else (f, []) in
        match main_gate http fuel' (S calls) retries' f' with
        | Some r =>
            Some (GateResult (gate_fs r) (gate_calls r) (gate_retries r)
                    (e1 ++ e2 ++ [Sleep 2000%N] ++ e3 ++ gate_effects r))
        | None => None
        end
  end.

Section Boot.

Variable DEPENDENCIES : jsobject.

(** Phase 2 of [main]: [AGENTS.forEach(agent => { startAgent(agent); })]. *)
Fixpoint start_all (agents : list string) (s : state) : state * list effect :=
  match agents with
  | [] => (s, [])
  | agent :: rest =>
      let '(s1, e1) := startAgent DEPENDENCIES agent s in
      let '(s2, e2) := start_all rest s1 in
      (s2, e1 ++ e2)
  end.

Definition main (http : nat → bool) (fuel : nat) (f : gset string)
  : option (state * list effect) :=
  match main_gate http fuel 0 0 f with
  | None => None
  | Some g =>
      let '(s, e) := start_all (AGENTS DEPENDENCIES) (State (gate_fs g) ∅ [] ∅ 0) in
      Some (set_fs ({[RUNLEVEL_LATCH]} ∪ fs s) s,
            [ConsoleLog msg_init; ConsoleLog msg_waiting] ++ gate_effects g
              ++ [ConsoleLog msg_detected] ++ e
              ++ [ConsoleLog (msg_running (length (AGENTS DEPENDENCIES)));
                  WriteFileSync RUNLEVEL_LATCH "RUNNING"])
  end.

(** Module evaluation followed by [main()].  Nothing in [main] throws in
    this model, so its [catch] handler never runs. *)
Definition boot (http : nat → bool) (fuel : nat) (f : gset string)
  : option (state * list effect) :=
  let '(f1, e0) := module_init f in
  match main http fuel f1 with
  | Some (s, e) => Some (s, e0 ++ e)
  | None => None
  end.

(** A run of the event loop after boot: the labels are handled one at a
    time. *)
Fixpoint run (s : state) (ls : list label) : option (state * list effect) :=
  match ls with
  | [] => Some (s, [])
  | l :: rest =>
      match step DEPENDENCIES s l with
      | Some (s1, e1) =>
          match run s1 rest with
          | Some (s2, e2) => Some (s2, e1 ++ e2)
          | None => None
          end
      | None => None
      end
  end.

(** States the supervisor can be in, along runs all of whose states satisfy
    [P]. *)
Inductive reachable_within (P : state → Prop) : state → Prop :=
  | reach_boot http fuel f s effs :
      boot http fuel f = Some (s, effs) → P s → reachable_within P s
  | reach_step s l s' effs :
      reachable_within P s → step DEPENDENCIES s l = Some (s', effs) → P s' →
      reachable_within P s'.

Definition reachable : state → Prop := reachable_within (λ _, True).

(** [a] declares [b] as a dependency. *)
Definition dep_edge (a b : string) : Prop :=
  ∃ deps, obj_get DEPENDENCIES a = Some deps ∧ b ∈ deps.

(** [a] depends on itself, directly or transitively. *)
Definition on_cycle (a : string) : Prop := tc dep_edge a a.

(** The supervisor refuses to start: no boot ever completes. *)
Definition refuses_to_start : Prop :=
  ∀ http fuel f s effs, boot http fuel f ≠ Some (s, effs).

End Boot.

(** ** The table of the program *)

Module Nexus.

Definition DEPENDENCIES : jsobject :=
  [ ("CORE", []);
    ("WAVE", ["CORE"]);
    ("LOOP", ["CORE"]);
    ("COIN", ["CORE"]);
    ("SIGN", ["CORE"]);
    ("WORK", ["CORE"; "LOOP"]);
    ("CUBE", ["CORE"; "WAVE"]);
    ("CODE", ["CORE"; "WORK"]);
    ("LINE", ["CORE"; "SIGN"]) ].

End Nexus.

(** ** Observations *)

(** The live registry as a reader sees it: the contents of the [Set], which
    the loops read through [startedAgents.has]. *)
Definition snapshot (s : state) : gset string := startedAgents s.

(** [startedAgents.add] and [startedAgents.delete] *)
Definition is_registry_mutation (e : effect) : bool :=
  match e with
  | SetAdd _ | SetDelete _ => true
  | _ => false
  end.

(** The agent whose loop (or whose child's 'exit' listener) a label runs. *)
Definition label_agent (s : state) (l : label) : option string :=
  match l with
  | TimerFires i => fst <$> loops s !! i
  | ProcExit pid _ => children s !! pid
  | EnvCreate _ | EnvRemove _ => None
  end.

Definition is_env_remove (l : label) : bool :=
  match l with
  | EnvRemove _ => true
  | _ => false
  end.

(** What a pass of the loop body does about the launch target. *)
Definition touches_script (e : effect) : bool :=
  match e with
  | ExistsSync _ _ | ConsoleError _ => true
  | _ => false
  end.

Definition is_write (e : effect) : bool :=
  match e with
  | WriteFileSync _ _ => true
  | _ => false
  end.

(** ** Sample inputs *)

(** A table whose only agent depends on itself. *)
Definition self_dependent : jsobject := [("A", ["A"])].

(** Health checks: always up, always down, up from the third call on. *)
Definition always_ready : nat → bool := λ _, true.
Definition never_ready : nat → bool := λ _, false.
Definition ready_on_third_call : nat → bool := λ k, bool_decide (2 ≤ k).

(** A file system holding every agent script of the program's table. *)
Definition all_scripts : gset string :=
  list_to_set (script_of <$> AGENTS Nexus.DEPENDENCIES).

Definition empty_state : state := State ∅ ∅ [] ∅ 0.

Definition boot_state (DEPENDENCIES : jsobject) (http : nat → bool)
    (fuel : nat) (f : gset string) : state :=
  match boot DEPENDENCIES http fuel f with
  | Some (s, _) => s
  | None => empty_state
  end.

Definition boot_effects (DEPENDENCIES : jsobject) (http : nat → bool)
    (fuel : nat) (f : gset string) : list effect :=
  match boot DEPENDENCIES http fuel f with
  | Some (_, effs) => effs
  | None => []
  end.

Definition run_state (DEPENDENCIES : jsobject) (s : state) (ls : list label)
  : state :=
  match run DEPENDENCIES s ls with
  | Some (s', _) => s'
  | None => empty_state
  end.

Definition run_effects (DEPENDENCIES : jsobject) (s : state) (ls : list label)
  : list effect :=
  match run DEPENDENCIES s ls with
  | Some (_, effs) => effs
  | None => []
  end.

(** The program's table booted with every script in place: all nine agents
    are launched during boot, in the order of the keys. *)
Definition booted : state := boot_state Nexus.DEPENDENCIES always_ready 1 all_scripts.

(** ... and booted with no script at all. *)
Definition booted_bare : state := boot_state Nexus.DEPENDENCIES always_ready 1 ∅.

(** The child of CORE exits with code 1. *)
Definition core_exit : label := ProcExit 0 (Some 1%N).
Definition after_core_exit : state := run_state Nexus.DEPENDENCIES booted [core_exit].

(** ... after which the restart timer of CORE's loop fires. *)
Definition core_restart : label := TimerFires 0.
Definition after_core_restart : state :=
  run_state Nexus.DEPENDENCIES after_core_exit [core_restart].

(** A registry in which only CORE is live, over a complete file system,
    and one in which nothing is. *)
Definition core_live : state := State all_scripts {["CORE"]} [] ∅ 0.
Definition nothing_live : state := State all_scripts ∅ [] ∅ 0.

(** Timers of CORE and WAVE fire while the outside world adds a file. *)
Definition quiet_labels : list label :=
  [TimerFires 0; EnvCreate "/tmp/x"; TimerFires 1].

(** ** Invariants *)

(** Every live child handle is awaited by a loop of its agent, and handle
    identities below [next_pid] are the only ones in use. *)
Definition handles_owned (s : state) : Prop :=
  (∀ pid a, children s !! pid = Some a → (a, AwaitExit pid) ∈ loops s) ∧
  (∀ pid a, children s !! pid = Some a → pid < next_pid s).

(** The agent is not in the live registry and has no live child handle. *)
Definition idle (a : string) (s : state) : Prop :=
  (a ∉ startedAgents s) ∧ ∀ pid, children s !! pid ≠ Some a.

(** Every loop of the agent is suspended in one of the two retry sleeps. *)
Definition retrying (a : string) (s : state) : Prop :=
  ∀ p, (a, p) ∈ loops s → p = AwaitSleep 1000 ∨ p = AwaitSleep 5000.

(** Every loop of the agent is suspended in the five-second sleep that
    follows the missing-script message. *)
Definition in_launch_retry (a : string) (s : state) : Prop :=
  ∀ i p, loops s !! i = Some (a, p) → p = AwaitSleep 5000.

(** A set of agents each of which declares a dependency inside the set. *)
Definition self_blocking (DEPENDENCIES : jsobject) (B : string → Prop) : Prop :=
  ∀ a, B a → ∃ b, dep_edge DEPENDENCIES a b ∧ B b.

(** The four ways through the loop body. *)
Inductive body_case (DEPENDENCIES : jsobject) (agentName : string) (s : state)
  : pc * state * list effect → Prop :=
  | body_throws :
      obj_get DEPENDENCIES agentName = None →
      body_case DEPENDENCIES agentName s (Rejected, s, [ThrowTypeError])
  | body_waits deps :
      obj_get DEPENDENCIES agentName = Some deps →
      all_deps_started deps (startedAgents s) = false →
      body_case DEPENDENCIES agentName s (AwaitSleep 1000, s, [Sleep 1000%N])
  | body_script_missing deps :
      obj_get DEPENDENCIES agentName = Some deps →
      all_deps_started deps (startedAgents s) = true →
      script_of agentName ∉ fs s →
      body_case DEPENDENCIES agentName s
        (AwaitSleep 5000, s,
         [ExistsSync (script_of agentName) false;
          ConsoleError (msg_script_missing agentName (script_of agentName));
          Sleep 5000%N])
  | body_spawns deps :
      obj_get DEPENDENCIES agentName = Some deps →
      all_deps_started deps (startedAgents s) = true →
      script_of agentName ∈ fs s →
      body_case DEPENDENCIES agentName s
        (AwaitExit (next_pid s),
         State (fs s) ({[agentName]} ∪ startedAgents s) (loops s)
               (<[next_pid s := agentName]> (children s)) (S (next_pid s)),
         [ExistsSync (script_of agentName) true;
          ConsoleLog (msg_starting agentName);
          Spawn (next_pid s) (script_of agentName) agentName;
          CreateWriteStream (logFile_of agentName);
          SetAdd agentName]).

(** ** More invariants *)

(** The registry holds exactly the agents that have a live child. *)
Definition registry_mirrors_children (s : state) : Prop :=
  ∀ a, a ∈ startedAgents s ↔ ∃ pid, children s !! pid = Some a.

(** Every name in the registry is a key of the table. *)
Definition registry_within (DEPENDENCIES : jsobject) (s : state) : Prop :=
  ∀ a, a ∈ startedAgents s → a ∈ obj_keys DEPENDENCIES.

(** No loop has thrown. *)
Definition no_loop_rejected (s : state) : Prop :=
  ∀ a p, (a, p) ∈ loops s → p ≠ Rejected.

(** ** More sample inputs *)

(** A health check that is up from call number [n] on (counting from 0). *)
Definition ready_from (n : nat) : nat → bool := λ k, bool_decide (n ≤ k).

(** What the readiness loop returns, when it returns. *)
Definition gate_outcome (http : nat → bool) (fuel : nat) (f : gset string)
  : gate_result :=
  match main_gate http fuel 0 0 f with
  | Some g => g
  | None => GateResult ∅ 0 0 []
  end.

(** ** Key order *)



(** A table with a dependency that is not an agent. *)
Definition misspelt : jsobject := [ ("CORE", []); ("WAVE", ["CORE"; "COER"]) ].

(** * The launcher scripts

    [start-pm2.sh] waits for the latch file, forces it after a bounded
    wait, and starts the supervisor under PM2; the Ollama start-up script
    creates the latch once the Ollama API answers.  Both are sequential
    shell scripts.  The outside world acts while a script sleeps: it may
    create paths (it is not taken to remove any), and it decides what
    [curl] returns. *)

Inductive sh_effect : Type :=
  | Echo (msg : string)
  | ShSleep (seconds : nat)
  | MkdirP (dirs : list string)
  | EchoInto (content path : string)       (* [echo content > path] *)
  | Touch (path : string)
  | Curl (ok : bool)
  | Pm2Start (target : string) (name : option string)
  | Pm2Save
  | Pm2Logs (name : string).

Global Instance sh_effect_eq_dec : EqDecision sh_effect.
Proof. solve_decision. Defined.

Module StartPm2.

(** [HOME_DIR="${HOME:-/home/loop}"]: the default stands in for an unset
    and for an empty [HOME]. *)
Definition HOME_DIR (HOME : option string) : string :=
  match HOME with
  | Some h => if decide (h = "") then "/home/loop" else h
  | None => "/home/loop"
  end.

Definition RUNLEVEL_DIR (HOME : option string) : string := HOME_DIR HOME +:+ "/ai-runlevel".
Definition LOGS_DIR (HOME : option string) : string := RUNLEVEL_DIR HOME +:+ "/logs".
Definition SOCKETS_DIR (HOME : option string) : string := RUNLEVEL_DIR HOME +:+ "/sockets".
Definition OLLAMA_LATCH (HOME : option string) : string :=
  SOCKETS_DIR HOME +:+ "/ollama_ready.latch".
Definition AI_SCRIPT (HOME : option string) : string :=
  RUNLEVEL_DIR HOME +:+ "/ai-runlevel.mjs".
Definition ECOSYSTEM (HOME : option string) : string :=
  RUNLEVEL_DIR HOME +:+ "/ecosystem.config.cjs".
Definition PM2_NAME : string := "ai-runlevel".
Definition MAX_RETRIES : nat := 15.
Definition SLEEP_INTERVAL : nat := 2.

Definition msg_waiting (retry : nat) : string :=
  "[start-pm2.sh] Waiting for Ollama signal... (" +:+ pretty retry +:+ "/"
    +:+ pretty MAX_RETRIES +:+ ")".

Record wait_result : Type := WaitResult {
  wait_fs : gset string;          (* the file system when the loop is left *)
  wait_retry : nat;               (* final value of [RETRY] *)
  wait_effects : list sh_effect
}.

(** [while [ ! -f "$OLLAMA_LATCH" ] && [ $RETRY -lt $MAX_RETRIES ]; do ... done];
    [arrivals k] are the paths the outside world creates during the sleep
    that follows test number [k]. *)
Fixpoint wait_loop (HOME : option string) (arrivals : nat → gset string)
    (fuel retry : nat) (f : gset string) : option wait_result :=
  match fuel with
  | 0 => None
  | S fuel' =>
      if bool_decide (OLLAMA_LATCH HOME ∉ f) && bool_decide (retry < MAX_RETRIES)
      then
        match wait_loop HOME arrivals fuel' (S retry) (arrivals retry ∪ f) with
        | Some r =>
            Some (WaitResult (wait_fs r) (wait_retry r)
                    (Echo (msg_waiting retry) :: ShSleep SLEEP_INTERVAL
                       :: wait_effects r))
        | None => None
        end
      else Some (WaitResult f retry [])
  end.

(** The whole script, up to [pm2 logs], which does not return. *)
Definition script (HOME : option string) (arrivals : nat → gset string)
    (fuel : nat) (f : gset string) : option (gset string * nat * list sh_effect) :=
  (* [mkdir -p] creates a directory and its ancestors, as the recursive
     [fs.mkdirSync] does *)
  let f1 := mkdirSync_recursive (LOGS_DIR HOME)
              (mkdirSync_recursive (SOCKETS_DIR HOME) f) in
  match wait_loop HOME arrivals fuel 0 f1 with
  | None => None
  | Some r =>
      let '(f2, forced) :=
        if bool_decide (OLLAMA_LATCH HOME ∉ wait_fs r)
        then ({[OLLAMA_LATCH HOME]} ∪ wait_fs r,
              [Echo "[start-pm2.sh] Ollama signal timeout. Forcing readiness...";
               EchoInto "LATCH_FORCED" (OLLAMA_LATCH HOME)])
        else (wait_fs r, []) in
      let start :=
        if bool_decide (ECOSYSTEM HOME ∈ f2)
        then Pm2Start (ECOSYSTEM HOME) None
        else Pm2Start (AI_SCRIPT HOME) (Some PM2_NAME) in
      Some (f2, wait_retry r,
            [Echo "[start-pm2.sh] NEXUS cockpit starting...";
             MkdirP [SOCKETS_DIR HOME; LOGS_DIR HOME]]
              ++ wait_effects r ++ forced
              ++ [Echo "[start-pm2.sh] Proceeding with PM2 startup.";
                  start; Pm2Save;
                  Echo "[start-pm2.sh] Orchestrator started. Tailing logs...";
                  Pm2Logs PM2_NAME])
  end.

End StartPm2.

Module OllamaStartup.

Definition SOCKET_DIR (HOME : string) : string := HOME +:+ "/ai-runlevel/sockets".
Definition LATCH_FILE (HOME : string) : string := SOCKET_DIR HOME +:+ "/ollama_ready.latch".

(** [while ! curl -sf http://127.0.0.1:11435/api/tags >/dev/null; do sleep 1; done];
    [curl k] tells whether request number [k] succeeds.  Returns the
    number of sleeps. *)
Fixpoint poll (curl : nat → bool) (fuel k : nat) : option (nat * list sh_effect) :=
  match fuel with
  | 0 => None
  | S fuel' =>
      if curl k then Some (k, [Curl true])
      else
        match poll curl fuel' (S k) with
        | Some (n, e) => Some (n, Curl false :: ShSleep 1 :: e)
        | None => None
        end
  end.

(** The script up to [tail -f /dev/null], which keeps it alive for ever.
    [HOME] is empty when the variable is unset. *)
Definition script (HOME : string) (curl : nat → bool) (fuel : nat) (f : gset string)
  : option (gset string * nat * list sh_effect) :=
  let f1 := mkdirSync_recursive (SOCKET_DIR HOME) f in
  match poll curl fuel 0 with
  | None => None
  | Some (n, e) =>
      Some ({[LATCH_FILE HOME]} ∪ f1, n,
            [MkdirP [SOCKET_DIR HOME];
             Echo "[ollama-startup] Waiting for Ollama on 127.0.0.1:11435..."]
              ++ e
              ++ [Touch (LATCH_FILE HOME);
                  Echo "[ollama-startup] Ollama ready. Latch set."])
  end.

End OllamaStartup.

(** Sample schedules: the latch shows up during the third sleep; nothing
    ever shows up. *)
Definition latch_during_third_sleep : nat → gset string :=
  λ k, if decide (k = 2) then {[OLLAMA_LATCH]} else ∅.

(** * nexus-logic.mjs: the Cube rule evaluator *)

Module NexusLogic.

(** A JavaScript number as the evaluator sees it.  A finite double is a
    rational [num / den]; the evaluator only compares the number with 1
    and 10 and tests [x % 2] against zero. *)
Inductive number : Type :=
  | Finite (num : Z) (den : positive)
  | PosInfinity
  | NegInfinity
  | NaN.

(** [x >= 1] *)
Definition ge_one (x : number) : bool :=
  match x with
  | Finite n d => (Z.pos d <=? n)%Z
  | PosInfinity => true
  | NegInfinity | NaN => false
  end.

(** [x <= 10] *)
Definition le_ten (x : number) : bool :=
  match x with
  | Finite n d => (n <=? 10 * Z.pos d)%Z
  | NegInfinity => true
  | PosInfinity | NaN => false
  end.

(** [x % 2 === 0]: [x] is an even integer; the remainder of an infinity
    or of NaN is NaN. *)
Definition mod2_is_zero (x : number) : bool :=
  match x with
  | Finite n d => (n mod (2 * Z.pos d) =? 0)%Z
  | PosInfinity | NegInfinity | NaN => false
  end.

(** [s.startsWith(" ")] and [s.endsWith(" ")] *)
Definition startsWith_space (s : string) : bool :=
  match s with
  | String c _ => bool_decide (c = " "%char)
  | EmptyString => false
  end.

Fixpoint endsWith_space (s : string) : bool :=
  match s with
  | EmptyString => false
  | String c EmptyString => bool_decide (c = " "%char)
  | String _ rest => endsWith_space rest
  end.

(** [{ CORE: boolean, LOOP: boolean, WAVE: boolean, COIN: number, CODE: string }] *)
Record cube_state : Type := CubeState {
  CORE : bool;
  LOOP : bool;
  WAVE : bool;
  COIN : number;
  CODE : string
}.

(** [{ success, message, output }]; [None] is [null]. *)
Record verdict : Type := Verdict {
  success : bool;
  message : string;
  output : option string
}.

Definition evaluateCubeLogic (state : cube_state) : verdict :=
  let '(CubeState CORE LOOP WAVE COIN CODE) := state in
  (* 1) *)
  if CORE then Verdict false "FAILURE: CORE is true." None
  (* 8) [!WAVE && CORE !== false] *)
  else if negb WAVE && negb (bool_decide (CORE = false)) then
    Verdict false "INVALID STATE: No WAVE requires CORE to be false." None
  (* 5) *)
  else if negb LOOP && negb WAVE then
    Verdict false "FAILURE: Neither LOOP nor WAVE exist while CORE is false." None
  else
    (* 4) the branch [if (!coinInRange && LOOP === true)] is empty *)
    let coinInRange := ge_one COIN && le_ten COIN in
    (* 2) *)
    if negb LOOP then Verdict true "SUCCESS: LOOP is false, CODE ignored." None
    (* 3) *)
    else if WAVE && negb (mod2_is_zero COIN) then
      Verdict false "FAILURE: WAVE is true but COIN is not even." None
    else if WAVE && negb (endsWith_space CODE) then
      Verdict false "FAILURE: WAVE is true but CODE not followed by space." None
    (* 7) *)
    else if LOOP && WAVE then
      Verdict false "FAILURE: LOOP and WAVE conflict on COIN parity." None
    else if LOOP && mod2_is_zero COIN then
      Verdict false "FAILURE: LOOP is true but COIN is not odd (Rule 7)." None
    else if LOOP && startsWith_space CODE then
      Verdict false "FAILURE: LOOP is true but CODE is preceded by space." None
    (* 6) *)
    else
      Verdict true "EXECUTION COMPLETE"
        (if LOOP && negb coinInRange then Some CODE else None).

(** The three scenarios the module runs when executed directly. *)
Definition scenario1 : cube_state := CubeState true false false (Finite 5 1) "TEST".
Definition scenario2 : cube_state := CubeState false true false (Finite 11 1) "NEXUS".
Definition scenario3 : cube_state := CubeState false false true (Finite 4 1) "WAVE ".

End NexusLogic.

Definition start_pm2_outcome (HOME : option string) (arrivals : nat → gset string)
    (fuel : nat) (f : gset string) : gset string * nat * list sh_effect :=
  match StartPm2.script HOME arrivals fuel f with
  | Some r => r
  | None => (∅, 0, [])
  end.

(** * Properties *)

(** Membership in a list built from literals, [++] and hypotheses. *)
Ltac find_elem :=
  solve [ assumption
        | apply list_elem_of_here
        | apply list_elem_of_further; find_elem
        | apply elem_of_app; left; find_elem
        | apply elem_of_app; right; find_elem ].

(** Evaluation of decidable side conditions. *)
Ltac by_evaluation :=
  match goal with
  | |- ?P => apply (bool_decide_unpack P); vm_compute; exact I
  end.

(** Case analysis on membership in a list that is written out. *)
Ltac in_literal H :=
  repeat match type of H with
         | _ ∈ [] => by apply elem_of_nil in H
         | _ ∈ _ :: _ => apply elem_of_cons in H as [H|H]; [try done|]
         end.

(** ** The embedding on concrete inputs *)

Example script_of_CORE : script_of "CORE" = "/home/loop/ai-runlevel/nexus-core.mjs".
Proof. reflexivity. Qed.

Example latch_path : OLLAMA_LATCH = "/home/loop/ai-runlevel/sockets/ollama_ready.latch".
Proof. reflexivity. Qed.

Example exit_message :
  msg_exited "CORE" (Some 1%N) = "[CORE] Exited with code 1. Restarting in 2s...".
Proof. reflexivity. Qed.

Example mkdir_logs :
  ancestors_from "" LOGS_DIR
  = ["/home"; "/home/loop"; "/home/loop/ai-runlevel"; "/home/loop/ai-runlevel/logs"].
Proof. reflexivity. Qed.

(** With every script in place all nine agents are launched during boot,
    each one finding its dependencies already live. *)
Example boot_launches_in_key_order :
  loops booted
  = [("CORE", AwaitExit 0); ("WAVE", AwaitExit 1); ("LOOP", AwaitExit 2);
     ("COIN", AwaitExit 3); ("SIGN", AwaitExit 4); ("WORK", AwaitExit 5);
     ("CUBE", AwaitExit 6); ("CODE", AwaitExit 7); ("LINE", AwaitExit 8)].
Proof. by vm_compute. Qed.

(** With no script, CORE retries its launch and everyone else waits. *)
Example boot_without_scripts :
  loops booted_bare
  = [("CORE", AwaitSleep 5000); ("WAVE", AwaitSleep 1000); ("LOOP", AwaitSleep 1000);
     ("COIN", AwaitSleep 1000); ("SIGN", AwaitSleep 1000); ("WORK", AwaitSleep 1000);
     ("CUBE", AwaitSleep 1000); ("CODE", AwaitSleep 1000); ("LINE", AwaitSleep 1000)].
Proof. by vm_compute. Qed.

Example gate_never_ready :
  (λ g, (gate_calls g, gate_retries g)) <$> main_gate never_ready 17 0 0 ∅
  = Some (17, 16).
Proof. by vm_compute. Qed.

Example gate_out_of_fuel : main_gate never_ready 16 0 0 ∅ = None.
Proof. by vm_compute. Qed.

(** ** The dependency check and the loop body *)

Lemma all_deps_started_spec (deps : list string) (live : gset string) :
  all_deps_started deps live = true ↔ ∀ dep, dep ∈ deps → dep ∈ live.
Proof.
  unfold all_deps_started. rewrite forallb_forall. split.
  - intros H dep Hin. apply list_elem_of_In, H in Hin.
    by apply bool_decide_eq_true in Hin.
  - intros H dep Hin. apply bool_decide_eq_true, H. by apply list_elem_of_In.
Qed.

Lemma all_deps_started_missing (deps : list string) (live : gset string) dep :
  dep ∈ deps → dep ∉ live → all_deps_started deps live = false.
Proof.
  intros Hin Hnot. apply not_true_is_false. intros Hall.
  apply Hnot. by eapply all_deps_started_spec.
Qed.

Lemma spawnLoop_body_case DEPENDENCIES agentName s :
  body_case DEPENDENCIES agentName s (spawnLoop_body DEPENDENCIES agentName s).
Proof.
  unfold spawnLoop_body.
  destruct (obj_get DEPENDENCIES agentName) as [deps|] eqn:Hget;
    [|by constructor].
  destruct (all_deps_started deps (startedAgents s)) eqn:Hall; simpl;
    [|by econstructor].
  case_bool_decide; simpl; by econstructor.
Qed.

(** [C1] Every launch decision: the dependency check is exactly "every
    declared dependency is in the live set"; while some declared dependency
    is absent the pass ends in the one-second wait with nothing changed;
    and a pass that spawns the process (and so suspends on its exit) saw
    every declared dependency live. *)
Theorem launch_requires_live_deps
    (DEPENDENCIES : jsobject) (agentName : string) (deps : list string)
    (s s' : state) (p : pc) (effs : list effect) :
  obj_get DEPENDENCIES agentName = Some deps →
  spawnLoop_body DEPENDENCIES agentName s = (p, s', effs) →
  (all_deps_started deps (snapshot s) = true
     ↔ ∀ dep, dep ∈ deps → dep ∈ snapshot s) ∧
  ((∃ dep, dep ∈ deps ∧ dep ∉ startedAgents s) →
     p = AwaitSleep 1000 ∧ s' = s ∧ effs = [Sleep 1000%N]) ∧
  ((∃ pid, p = AwaitExit pid ∨ children s' !! pid ≠ children s !! pid
           ∨ ∃ script, Spawn pid script agentName ∈ effs) →
     ∀ dep, dep ∈ deps → dep ∈ startedAgents s).
Proof.
  intros Hget Hbody. split; [apply all_deps_started_spec|].
  pose proof (spawnLoop_body_case DEPENDENCIES agentName s) as Hcase.
  rewrite Hbody in Hcase. split.
  - intros (dep & Hin & Hnot).
    pose proof (all_deps_started_missing _ _ _ Hin Hnot) as Hfalse.
    inversion Hcase; simplify_eq; done || congruence.
  - intros (pid & Hrun).
    inversion Hcase; subst.
    + congruence.
    + destruct Hrun as [?|[?|(script & Hin)]]; [done..|].
      apply list_elem_of_singleton in Hin. done.
    + destruct Hrun as [?|[?|(script & Hin)]]; [done..|].
      in_literal Hin.
    + assert (deps0 = deps) as -> by congruence.
      by apply all_deps_started_spec.
Qed.

(** ** Bookkeeping: loops, names and boot *)

Lemma obj_get_is_Some (obj : jsobject) (key : string) :
  key ∈ obj_keys obj ↔ is_Some (obj_get obj key).
Proof.
  unfold obj_keys. induction obj as [|[k v] obj IH]; simpl.
  - split; [by intros ?%elem_of_nil | by intros [? ?]].
  - rewrite elem_of_cons. case_decide as Hk.
    + split; [eauto | by left].
    + rewrite <- IH. split; [intros [?|?]; congruence || done | by right].
Qed.

Lemma spawnLoop_body_loops DEPENDENCIES agentName s :
  loops (spawnLoop_body DEPENDENCIES agentName s).1.2 = loops s.
Proof. by destruct (spawnLoop_body_case DEPENDENCIES agentName s). Qed.

Lemma spawnLoop_body_fs DEPENDENCIES agentName s :
  fs (spawnLoop_body DEPENDENCIES agentName s).1.2 = fs s.
Proof. by destruct (spawnLoop_body_case DEPENDENCIES agentName s). Qed.

Lemma startAgent_loops DEPENDENCIES agentName s :
  loops (startAgent DEPENDENCIES agentName s).1
  = loops s ++ [(agentName, (spawnLoop_body DEPENDENCIES agentName s).1.1)].
Proof.
  unfold startAgent.
  pose proof (spawnLoop_body_loops DEPENDENCIES agentName s) as Hl.
  destruct (spawnLoop_body DEPENDENCIES agentName s) as [[p s'] effs].
  simpl in *. by rewrite Hl.
Qed.

Lemma startAgent_fs DEPENDENCIES agentName s :
  fs (startAgent DEPENDENCIES agentName s).1 = fs s.
Proof.
  unfold startAgent.
  pose proof (spawnLoop_body_fs DEPENDENCIES agentName s) as Hf.
  by destruct (spawnLoop_body DEPENDENCIES agentName s) as [[p s'] effs].
Qed.

(** An invariant of [startAgent] is an invariant of the whole [forEach]. *)
Lemma start_all_invariant DEPENDENCIES (I : state → Prop) agents :
  (∀ agent s, agent ∈ agents → I s → I (startAgent DEPENDENCIES agent s).1) →
  ∀ s, I s → I (start_all DEPENDENCIES agents s).1.
Proof.
  induction agents as [|agent rest IH]; intros Hstart s Hs; simpl; [done|].
  pose proof (Hstart agent s (list_elem_of_here _ _) Hs) as H1.
  destruct (startAgent DEPENDENCIES agent s) as [s1 e1]. simpl in H1.
  assert (I (start_all DEPENDENCIES rest s1).1) as H2.
  { apply IH; [|done]. intros a t Ha. apply Hstart. by right. }
  by destruct (start_all DEPENDENCIES rest s1) as [s2 e2].
Qed.

Lemma start_all_names DEPENDENCIES agents s :
  (loops (start_all DEPENDENCIES agents s).1).*1 = (loops s).*1 ++ agents.
Proof.
  revert s. induction agents as [|agent rest IH]; intros s; simpl.
  - by rewrite app_nil_r.
  - pose proof (startAgent_loops DEPENDENCIES agent s) as Hl.
    destruct (startAgent DEPENDENCIES agent s) as [s1 e1]. simpl in Hl.
    specialize (IH s1).
    destruct (start_all DEPENDENCIES rest s1) as [s2 e2]. simpl in *.
    rewrite IH, Hl, fmap_app. simpl. by rewrite <- app_assoc.
Qed.

Lemma start_all_fs DEPENDENCIES agents s :
  fs (start_all DEPENDENCIES agents s).1 = fs s.
Proof.
  apply (start_all_invariant DEPENDENCIES (λ t, fs t = fs s)); [|done].
  intros agent t _ Ht. by rewrite startAgent_fs.
Qed.

(** What a completed boot consists of. *)
Lemma boot_inv DEPENDENCIES http fuel f s effs :
  boot DEPENDENCIES http fuel f = Some (s, effs) →
  ∃ g s1,
    main_gate http fuel 0 0 (module_init f).1 = Some g ∧
    s1 = (start_all DEPENDENCIES (AGENTS DEPENDENCIES)
            (State (gate_fs g) ∅ [] ∅ 0)).1 ∧
    s = set_fs ({[RUNLEVEL_LATCH]} ∪ fs s1) s1.
Proof.
  unfold boot, main. destruct (module_init f) as [f1 e0]. simpl.
  destruct (main_gate http fuel 0 0 f1) as [g|]; [|done].
  destruct (start_all _ _ _) as [s1 e1] eqn:Hall. intros [= <- <-].
  exists g, s1. by rewrite Hall.
Qed.

Lemma boot_names DEPENDENCIES http fuel f s effs :
  boot DEPENDENCIES http fuel f = Some (s, effs) →
  (loops s).*1 = obj_keys DEPENDENCIES.
Proof.
  intros (g & s1 & _ & -> & ->)%boot_inv. simpl.
  by rewrite start_all_names.
Qed.

(** A property of the empty supervisor that [startAgent] preserves, and
    that does not depend on the file system, holds once boot completes. *)
Lemma boot_invariant DEPENDENCIES (I : state → Prop) http fuel f s effs :
  (∀ f0, I (State f0 ∅ [] ∅ 0)) →
  (∀ agent t, agent ∈ obj_keys DEPENDENCIES → I t →
              I (startAgent DEPENDENCIES agent t).1) →
  (∀ t f', I t → I (set_fs f' t)) →
  boot DEPENDENCIES http fuel f = Some (s, effs) → I s.
Proof.
  intros Hinit Hstart Hfs (g & s1 & _ & -> & ->)%boot_inv.
  apply Hfs. by apply start_all_invariant.
Qed.

Lemma step_names DEPENDENCIES s l s' effs :
  step DEPENDENCIES s l = Some (s', effs) → (loops s').*1 = (loops s).*1.
Proof.
  destruct l as [i|pid code|p|p]; simpl.
  - destruct (loops s !! i) as [[a [ms|pid|]]|] eqn:Hi; try done.
    pose proof (spawnLoop_body_loops DEPENDENCIES a s) as Hl.
    destruct (spawnLoop_body DEPENDENCIES a s) as [[p t] e]. simpl in Hl.
    intros [= <- <-]. simpl. rewrite Hl, list_fmap_insert. simpl.
    apply list_insert_id. by rewrite list_lookup_fmap, Hi.
  - destruct (children s !! pid) as [a|]; [|done]. intros [= <- <-]. simpl.
    rewrite <- list_fmap_compose. apply list_fmap_ext.
    intros i [b q] _. unfold on_exit. simpl. by case_decide.
  - by intros [= <- <-].
  - by intros [= <- <-].
Qed.

Lemma reachable_names DEPENDENCIES P s :
  reachable_within DEPENDENCIES P s → (loops s).*1 = obj_keys DEPENDENCIES.
Proof.
  induction 1 as [http fuel f s effs Hboot _|s l s' effs _ IH Hstep _].
  - by eapply boot_names.
  - erewrite step_names; done.
Qed.

(** ** Child handles *)

Lemma spawnLoop_body_children DEPENDENCIES agentName s pid a :
  children (spawnLoop_body DEPENDENCIES agentName s).1.2 !! pid = Some a →
  children s !! pid = Some a
  ∨ (pid = next_pid s ∧ a = agentName
     ∧ (spawnLoop_body DEPENDENCIES agentName s).1.1 = AwaitExit pid).
Proof.
  destruct (spawnLoop_body_case DEPENDENCIES agentName s); simpl; eauto.
  rewrite lookup_insert. case_decide; [|by left].
  intros [= <-]. right. by subst.
Qed.

Lemma spawnLoop_body_next_pid DEPENDENCIES agentName s :
  next_pid s ≤ next_pid (spawnLoop_body DEPENDENCIES agentName s).1.2.
Proof. destruct (spawnLoop_body_case DEPENDENCIES agentName s); simpl; lia. Qed.

Lemma spawnLoop_body_fresh DEPENDENCIES agentName s pid :
  (spawnLoop_body DEPENDENCIES agentName s).1.1 = AwaitExit pid →
  pid < next_pid (spawnLoop_body DEPENDENCIES agentName s).1.2.
Proof.
  destruct (spawnLoop_body_case DEPENDENCIES agentName s); simpl; try done.
  intros [= <-]. lia.
Qed.

Lemma handles_owned_startAgent DEPENDENCIES agentName s :
  handles_owned s → handles_owned (startAgent DEPENDENCIES agentName s).1.
Proof.
  intros [Hown Hlt].
  pose proof (startAgent_loops DEPENDENCIES agentName s) as Hl.
  pose proof (spawnLoop_body_children DEPENDENCIES agentName s) as Hc.
  pose proof (spawnLoop_body_next_pid DEPENDENCIES agentName s) as Hn.
  pose proof (spawnLoop_body_fresh DEPENDENCIES agentName s) as Hf.
  unfold startAgent in *.
  destruct (spawnLoop_body DEPENDENCIES agentName s) as [[p t] e].
  simpl in *. split; intros pid a Hpid; simpl in *.
  - rewrite Hl. apply elem_of_app.
    destruct (Hc _ _ Hpid) as [Hold|(-> & -> & ->)].
    + left. by eapply Hown.
    + right. by apply list_elem_of_singleton.
  - destruct (Hc _ _ Hpid) as [Hold|(-> & -> & Hp)].
    + apply Hlt in Hold. lia.
    + by apply Hf.
Qed.

Lemma handles_owned_step DEPENDENCIES s l s' effs :
  step DEPENDENCIES s l = Some (s', effs) → handles_owned s → handles_owned s'.
Proof.
  intros Hstep [Hown Hlt]. destruct l as [i|pid code|p|p]; simpl in Hstep.
  - destruct (loops s !! i) as [[b [ms|pid0|]]|] eqn:Hi; try done.
    pose proof (spawnLoop_body_loops DEPENDENCIES b s) as Hl.
    pose proof (spawnLoop_body_children DEPENDENCIES b s) as Hc.
    pose proof (spawnLoop_body_next_pid DEPENDENCIES b s) as Hn.
    pose proof (spawnLoop_body_fresh DEPENDENCIES b s) as Hf.
    destruct (spawnLoop_body DEPENDENCIES b s) as [[q t] e].
    simpl in *. injection Hstep as <- <-.
    split; intros pid a Hpid; simpl in *.
    + rewrite Hl. destruct (Hc _ _ Hpid) as [Hold|(-> & -> & ->)].
      * apply Hown, list_elem_of_lookup in Hold as [j Hj].
        apply list_elem_of_lookup. exists j.
        rewrite list_lookup_insert_ne; [done|]. intros ->. congruence.
      * apply list_elem_of_insert. by eapply lookup_lt_Some.
    + destruct (Hc _ _ Hpid) as [Hold|(-> & -> & Hq)].
      * apply Hlt in Hold. lia.
      * by apply Hf.
  - destruct (children s !! pid) as [b|] eqn:Hb; [|done].
    injection Hstep as <- <-. split; intros pid' a Hpid; simpl in *.
    + apply lookup_delete_Some in Hpid as [Hne Hpid].
      apply (list_elem_of_fmap_2' _ _ (a, AwaitExit pid')); [by apply Hown|].
      unfold on_exit. simpl. case_decide; [congruence|done].
    + apply lookup_delete_Some in Hpid as [Hne Hpid]. by eapply Hlt.
  - injection Hstep as <- <-. done.
  - injection Hstep as <- <-. done.
Qed.

Lemma handles_owned_reachable DEPENDENCIES P s :
  reachable_within DEPENDENCIES P s → handles_owned s.
Proof.
  induction 1 as [http fuel f s effs Hboot _|s l s' effs _ IH Hstep _].
  - eapply (boot_invariant DEPENDENCIES handles_owned); [| | |done].
    + intros f0. split; intros pid a; simpl; by rewrite lookup_empty.
    + intros agent t _. apply handles_owned_startAgent.
    + by intros t f' [? ?].
  - by eapply handles_owned_step.
Qed.

(** In a list of loops with distinct names, a name fixes its entry. *)
Lemma loops_name_unique (ls : list (string * pc)) a p q :
  NoDup ls.*1 → (a, p) ∈ ls → (a, q) ∈ ls → p = q.
Proof.
  induction ls as [|[b r] ls IH]; simpl; [by intros _ ?%elem_of_nil|].
  rewrite NoDup_cons. intros [Hnotin Hnd] Hp Hq.
  apply elem_of_cons in Hp as [Hp|Hp]; apply elem_of_cons in Hq as [Hq|Hq].
  - congruence.
  - destruct Hnotin. injection Hp as <- <-.
    by apply (list_elem_of_fmap_2' _ _ (a, q)).
  - destruct Hnotin. injection Hq as <- <-.
    by apply (list_elem_of_fmap_2' _ _ (a, p)).
  - by apply IH.
Qed.

(** [C2] With the keys of the table distinct, as the keys of an object
    are, no two live child handles belong to the same agent; and a step
    that spawns a process for an agent starts from a state in which that
    agent has no live child handle. *)
Theorem at_most_one_child_per_agent
    (DEPENDENCIES : jsobject) (s : state) :
  NoDup (obj_keys DEPENDENCIES) →
  reachable DEPENDENCIES s →
  (∀ pid1 pid2 a,
      children s !! pid1 = Some a → children s !! pid2 = Some a → pid1 = pid2) ∧
  (∀ l s' effs pid script a,
      step DEPENDENCIES s l = Some (s', effs) →
      Spawn pid script a ∈ effs →
      ∀ pid', children s !! pid' ≠ Some a).
Proof.
  intros Hnd Hreach.
  pose proof (handles_owned_reachable _ _ _ Hreach) as [Hown _].
  pose proof (reachable_names _ _ _ Hreach) as Hnames.
  rewrite <- Hnames in Hnd. split.
  - intros pid1 pid2 a H1%Hown H2%Hown.
    pose proof (loops_name_unique _ _ _ _ Hnd H1 H2). congruence.
  - intros l s' effs pid script a Hstep Hspawn pid' Hchild%Hown.
    destruct l as [i|pid0 code|p|p]; simpl in Hstep.
    + destruct (loops s !! i) as [[b [ms|pid0|]]|] eqn:Hi; try done.
      pose proof (spawnLoop_body_case DEPENDENCIES b s) as Hcase.
      destruct (spawnLoop_body DEPENDENCIES b s) as [[q t] e].
      injection Hstep as <- <-.
      inversion Hcase; subst; in_literal Hspawn.
      injection Hspawn as -> -> ->.
      apply list_elem_of_lookup_2 in Hi.
      pose proof (loops_name_unique _ _ _ _ Hnd Hi Hchild). done.
    + destruct (children s !! pid0); [|done].
      injection Hstep as <- <-. in_literal Hspawn.
    + injection Hstep as <- <-. in_literal Hspawn.
    + injection Hstep as <- <-. in_literal Hspawn.
Qed.

(** ** The readiness loop *)

Lemma main_gate_ready http fuel calls retries f e :
  checkOllamaReady (http calls) f = (true, e) →
  main_gate http (S fuel) calls retries f = Some (GateResult f (S calls) retries e).
Proof. intros H. simpl. by rewrite H. Qed.

Lemma main_gate_not_ready http fuel calls retries f :
  http calls = false → OLLAMA_LATCH ∉ f →
  main_gate http (S fuel) calls retries f
  = let e1 := [HttpGet false; ExistsSync OLLAMA_LATCH false] in
    let e2 := if decide (retries mod 10 = 0) then [ConsoleLog msg_not_ready] else [] in
    let '(f', e3) :=
      if decide (15 < S retries)
      then ({[OLLAMA_LATCH]} ∪ f,
            [ConsoleLog msg_timeout; WriteFileSync OLLAMA_LATCH "LATCH_BYPASS"])
      else (f, []) in
    match main_gate http fuel (S calls) (S retries) f' with
    | Some r =>
        Some (GateResult (gate_fs r) (gate_calls r) (gate_retries r)
                (e1 ++ e2 ++ [Sleep 2000%N] ++ e3 ++ gate_effects r))
    | None => None
    end.
Proof.
  intros Hhttp Hlatch. cbn [main_gate]. unfold checkOllamaReady.
  rewrite Hhttp. by rewrite bool_decide_eq_false_2.
Qed.

Lemma checkOllamaReady_cases httpOk f :
  (∃ e, checkOllamaReady httpOk f = (true, e))
  ∨ (httpOk = false ∧ OLLAMA_LATCH ∉ f).
Proof.
  unfold checkOllamaReady. destruct httpOk; [by eauto|].
  case_bool_decide; eauto.
Qed.

Lemma checkOllamaReady_latch httpOk f :
  OLLAMA_LATCH ∈ f →
  ∃ e, checkOllamaReady httpOk f = (true, e) ∧ Forall (λ x, is_write x = false) e.
Proof.
  intros Hin. unfold checkOllamaReady. destruct httpOk.
  - eexists. split; [done|]. by repeat constructor.
  - rewrite bool_decide_eq_true_2 by done. eexists. split; [done|].
    by repeat constructor.
Qed.

(** The loop is left after a bounded number of calls, whatever the health
    check answers. *)
Lemma main_gate_terminates http fuel calls retries f :
  (OLLAMA_LATCH ∈ f ∧ 1 ≤ fuel) ∨ (2 ≤ fuel ∧ 17 ≤ fuel + retries) →
  ∃ g, main_gate http fuel calls retries f = Some g.
Proof.
  revert calls retries f.
  induction fuel as [|fuel IH]; intros calls retries f Hfuel; [lia|].
  destruct (checkOllamaReady_cases (http calls) f) as [[e He]|[Hhttp Hlatch]].
  { erewrite main_gate_ready; eauto. }
  rewrite main_gate_not_ready by done. cbn zeta.
  destruct Hfuel as [[? _]|[Hf2 Hf17]]; [done|].
  case_decide as Hret.
  - destruct (IH (S calls) (S retries) ({[OLLAMA_LATCH]} ∪ f)) as [g ->];
      [|by eauto].
    left. split; [set_solver|lia].
  - destruct (IH (S calls) (S retries) f) as [g ->]; [|by eauto].
    right. lia.
Qed.

(** More fuel does not change the outcome. *)
Lemma main_gate_fuel_mono http fuel fuel' calls retries f g :
  main_gate http fuel calls retries f = Some g → fuel ≤ fuel' →
  main_gate http fuel' calls retries f = Some g.
Proof.
  revert fuel' calls retries f g.
  induction fuel as [|fuel IH]; intros fuel' calls retries f g Hg Hle; [done|].
  destruct fuel' as [|fuel']; [lia|].
  destruct (checkOllamaReady_cases (http calls) f) as [[e He]|[Hhttp Hlatch]].
  { erewrite main_gate_ready in Hg |- *; eauto. }
  rewrite main_gate_not_ready in Hg |- * by done. cbn zeta in *.
  destruct (decide (15 < S retries));
    (destruct (main_gate http fuel _ _ _) as [r|] eqn:Hr; [|done]);
    by erewrite IH; [| |apply le_S_n, Hle].
Qed.

(** The loop only ever adds to the file system. *)
Lemma main_gate_fs_mono http fuel calls retries f g :
  main_gate http fuel calls retries f = Some g → f ⊆ gate_fs g.
Proof.
  revert calls retries f g.
  induction fuel as [|fuel IH]; intros calls retries f g Hg; [done|].
  destruct (checkOllamaReady_cases (http calls) f) as [[e He]|[Hhttp Hlatch]].
  { erewrite main_gate_ready in Hg by done. by injection Hg as <-. }
  rewrite main_gate_not_ready in Hg by done. cbn zeta in Hg.
  destruct (decide (15 < S retries));
    (destruct (main_gate http fuel _ _ _) as [r|] eqn:Hr; [|done]);
    injection Hg as <-; simpl; apply IH in Hr; set_solver.
Qed.

(** With a health check that never succeeds and no latch file, the loop
    runs until [retries] passes 15. *)
Lemma main_gate_always_failing http fuel calls retries f :
  (∀ k, http k = false) → OLLAMA_LATCH ∉ f →
  retries ≤ 15 → 17 ≤ fuel + retries →
  ∃ g, main_gate http fuel calls retries f = Some g ∧
       gate_calls g = calls + (17 - retries) ∧
       gate_retries g = 16 ∧
       gate_fs g = {[OLLAMA_LATCH]} ∪ f ∧
       WriteFileSync OLLAMA_LATCH "LATCH_BYPASS" ∈ gate_effects g.
Proof.
  intros Hhttp. revert calls retries f.
  induction fuel as [|fuel IH]; intros calls retries f Hlatch Hret Hfuel; [lia|].
  rewrite main_gate_not_ready by done. cbn zeta.
  case_decide as Hlast.
  - assert (retries = 15) as -> by lia.
    destruct fuel as [|fuel]; [lia|].
    destruct (checkOllamaReady_latch (http (S calls)) ({[OLLAMA_LATCH]} ∪ f))
      as (e & He & _); [set_solver|].
    erewrite main_gate_ready by done. eexists. split; [done|].
    cbn [gate_fs gate_calls gate_retries gate_effects].
    split_and!; [lia|done|done|find_elem].
  - destruct (IH (S calls) (S retries) f) as (g & -> & Hc & Hr & Hf & He);
      [done|lia|lia|].
    eexists. split; [done|].
    cbn [gate_fs gate_calls gate_retries gate_effects].
    split_and!; [lia|done|done|find_elem].
Qed.

(** With a health check that first succeeds on its third call. *)
Lemma main_gate_third_call http f :
  OLLAMA_LATCH ∉ f → http 0 = false → http 1 = false → http 2 = true →
  main_gate http 3 0 0 f
  = Some (GateResult f 3 2
            [HttpGet false; ExistsSync OLLAMA_LATCH false;
             ConsoleLog msg_not_ready; Sleep 2000%N;
             HttpGet false; ExistsSync OLLAMA_LATCH false; Sleep 2000%N;
             HttpGet true]).
Proof.
  intros Hlatch H0 H1 H2.
  rewrite (main_gate_not_ready http 2 0 0) by done.
  cbn zeta. case_decide; [lia|]. cbn beta iota.
  rewrite (main_gate_not_ready http 1 1 1) by done.
  cbn zeta. case_decide; [lia|]. cbn beta iota.
  rewrite (main_gate_ready http 0 2 2 f [HttpGet true]); [done|].
  unfold checkOllamaReady. by rewrite H2.
Qed.

(** [C5] Starting without a latch file: if the health check fails on every
    call, the loop is left after [retries] has reached 16, on call number
    17, with the latch file written; if the health check first succeeds
    on its third call, the loop is left after exactly three calls, the file
    system is unchanged and nothing was written. *)
Theorem readiness_gate_outcomes (http : nat → bool) (fuel : nat) (f : gset string) :
  OLLAMA_LATCH ∉ f → 17 ≤ fuel →
  ((∀ k, http k = false) →
     ∃ g, main_gate http fuel 0 0 f = Some g ∧
          gate_calls g = 17 ∧ gate_retries g = 16 ∧
          OLLAMA_LATCH ∈ gate_fs g ∧ gate_fs g = {[OLLAMA_LATCH]} ∪ f ∧
          WriteFileSync OLLAMA_LATCH "LATCH_BYPASS" ∈ gate_effects g) ∧
  (http 0 = false → http 1 = false → http 2 = true →
     ∃ g, main_gate http fuel 0 0 f = Some g ∧
          gate_calls g = 3 ∧ gate_retries g = 2 ∧
          gate_fs g = f ∧ (OLLAMA_LATCH ∉ gate_fs g) ∧
          Forall (λ e, is_write e = false) (gate_effects g)).
Proof.
  intros Hlatch Hfuel. split.
  - intros Hhttp.
    destruct (main_gate_always_failing http fuel 0 0 f)
      as (g & Hg & Hc & Hr & Hf & He); [done|done|lia|lia|].
    exists g. split_and!; try done. rewrite Hf.
    by apply elem_of_union_l, elem_of_singleton.
  - intros H0 H1 H2. eexists. split.
    + apply (main_gate_fuel_mono http 3); [|lia].
      by apply main_gate_third_call.
    + split_and!; try done. by repeat constructor.
Qed.

(** ** The latch file *)

Lemma module_init_fs_mono f : f ⊆ (module_init f).1.
Proof.
  unfold module_init, ensure_dir, mkdirSync_recursive. simpl.
  repeat case_bool_decide; simpl; set_solver.
Qed.

Lemma step_fs_mono DEPENDENCIES s l s' effs :
  step DEPENDENCIES s l = Some (s', effs) → is_env_remove l = false →
  fs s ⊆ fs s'.
Proof.
  destruct l as [i|pid code|p|p]; simpl; try done.
  - destruct (loops s !! i) as [[a [ms|pid|]]|] eqn:Hi; try done.
    pose proof (spawnLoop_body_fs DEPENDENCIES a s) as Hf.
    destruct (spawnLoop_body DEPENDENCIES a s) as [[q t] e].
    intros [= <- <-] _. simpl in *. by rewrite Hf.
  - destruct (children s !! pid); [|done]. by intros [= <- <-].
  - intros [= <- <-] _. simpl. set_solver.
Qed.

Lemma boot_fs_mono DEPENDENCIES http fuel f s effs :
  boot DEPENDENCIES http fuel f = Some (s, effs) → f ⊆ fs s.
Proof.
  intros (g & s1 & Hg & -> & ->)%boot_inv. simpl.
  rewrite start_all_fs. simpl.
  apply main_gate_fs_mono in Hg. pose proof (module_init_fs_mono f).
  set_solver.
Qed.

(** Boot completes as soon as the readiness loop does. *)
Lemma boot_completes DEPENDENCIES http fuel f g :
  main_gate http fuel 0 0 (module_init f).1 = Some g →
  ∃ s effs, boot DEPENDENCIES http fuel f = Some (s, effs).
Proof.
  intros Hg. unfold boot, main. destruct (module_init f) as [f1 e0].
  simpl in Hg. rewrite Hg. destruct (start_all _ _ _) as [s1 e1]. eauto.
Qed.

(** [C7] With the latch file present when the readiness loop is entered,
    the loop is left after its first call of the check, whatever the
    health check answers, without sleeping or writing; boot completes and
    the latch is still there; and neither the readiness loop nor any step
    of the supervisor removes a path from the file system: only the
    outside world does. *)
Theorem stale_latch_opens_gate
    (DEPENDENCIES : jsobject) (http : nat → bool) (fuel : nat) (f : gset string) :
  OLLAMA_LATCH ∈ f → 0 < fuel →
  (∃ g, main_gate http fuel 0 0 f = Some g ∧
        gate_calls g = 1 ∧ gate_retries g = 0 ∧ gate_fs g = f ∧
        gate_effects g
        = (if http 0 then [HttpGet true]
           else [HttpGet false; ExistsSync OLLAMA_LATCH true])) ∧
  (∃ s effs, boot DEPENDENCIES http fuel f = Some (s, effs) ∧
             OLLAMA_LATCH ∈ fs s) ∧
  (∀ http' fuel' f' g,
      main_gate http' fuel' 0 0 f' = Some g → f' ⊆ gate_fs g) ∧
  (∀ s l s' effs,
      step DEPENDENCIES s l = Some (s', effs) → is_env_remove l = false →
      fs s ⊆ fs s').
Proof.
  intros Hlatch Hfuel. destruct fuel as [|fuel]; [lia|]. split_and!.
  - eexists. split.
    + apply main_gate_ready. unfold checkOllamaReady.
      rewrite bool_decide_eq_true_2 by done.
      instantiate (1 := if http 0 then _ else _). by destruct (http 0).
    + done.
  - pose proof (module_init_fs_mono f) as Hinit.
    destruct (checkOllamaReady_latch (http 0) (module_init f).1)
      as (e & He & _); [set_solver|].
    destruct (boot_completes DEPENDENCIES http (S fuel) f
                (GateResult (module_init f).1 1 0 e)) as (s & effs & Hboot).
    { by apply main_gate_ready. }
    exists s, effs. split; [done|].
    apply boot_fs_mono in Hboot. set_solver.
  - intros http' fuel' f' g. apply main_gate_fs_mono.
  - apply step_fs_mono.
Qed.

(** ** Registry membership across a step *)

Lemma spawnLoop_body_started DEPENDENCIES agentName s x :
  x ∈ startedAgents (spawnLoop_body DEPENDENCIES agentName s).1.2
  ↔ x ∈ startedAgents s
    ∨ (x = agentName ∧ SetAdd x ∈ (spawnLoop_body DEPENDENCIES agentName s).2).
Proof.
  destruct (spawnLoop_body_case DEPENDENCIES agentName s); simpl.
  1-3: split; [by left|]; intros [?|[_ Hin]]; [done|in_literal Hin].
  rewrite elem_of_union, elem_of_singleton. split.
  - intros [->|?]; [right|by left]. split; [done|find_elem].
  - intros [?|[-> _]]; auto.
Qed.

(** A name enters the registry only through a [startedAgents.add] of the
    agent the label belongs to. *)
Lemma step_started_added DEPENDENCIES s l s' effs x :
  step DEPENDENCIES s l = Some (s', effs) → x ∈ startedAgents s' →
  x ∈ startedAgents s ∨ (SetAdd x ∈ effs ∧ label_agent s l = Some x).
Proof.
  destruct l as [i|pid code|p|p]; simpl.
  - destruct (loops s !! i) as [[a [ms|pid|]]|] eqn:Hi; try done.
    pose proof (spawnLoop_body_started DEPENDENCIES a s x) as Hx.
    destruct (spawnLoop_body DEPENDENCIES a s) as [[q t] e].
    intros [= <- <-]. simpl in *. intros [?|[-> ?]]%Hx; auto.
  - destruct (children s !! pid); [|done]. intros [= <- <-]. simpl.
    set_solver.
  - intros [= <- <-]. auto.
  - intros [= <- <-]. auto.
Qed.

(** A name leaves the registry only through a [startedAgents.delete] of
    the agent the label belongs to. *)
Lemma step_started_removed DEPENDENCIES s l s' effs x :
  step DEPENDENCIES s l = Some (s', effs) → x ∈ startedAgents s →
  x ∈ startedAgents s' ∨ (SetDelete x ∈ effs ∧ label_agent s l = Some x).
Proof.
  destruct l as [i|pid code|p|p]; simpl.
  - destruct (loops s !! i) as [[a [ms|pid|]]|] eqn:Hi; try done.
    pose proof (spawnLoop_body_started DEPENDENCIES a s x) as Hx.
    destruct (spawnLoop_body DEPENDENCIES a s) as [[q t] e].
    intros [= <- <-]. simpl in *. intros ?. left. apply Hx. by left.
  - destruct (children s !! pid) as [a|]; [|done]. intros [= <- <-]. simpl.
    intros Hin. destruct (decide (x = a)) as [->|Hne].
    + right. split; [find_elem|done].
    + left. set_solver.
  - intros [= <- <-]. auto.
  - intros [= <- <-]. auto.
Qed.

Lemma run_started_added DEPENDENCIES ls s s' effs x :
  run DEPENDENCIES s ls = Some (s', effs) → x ∈ startedAgents s' →
  x ∈ startedAgents s ∨ SetAdd x ∈ effs.
Proof.
  revert s effs. induction ls as [|l ls IH]; intros s effs; simpl.
  - intros [= <- <-]. auto.
  - destruct (step DEPENDENCIES s l) as [[s1 e1]|] eqn:Hstep; [|done].
    destruct (run DEPENDENCIES s1 ls) as [[s2 e2]|] eqn:Hrun; [|done].
    intros [= <- <-] Hx.
    destruct (IH _ _ Hrun Hx) as [H1|H2]; [|right; find_elem].
    destruct (step_started_added _ _ _ _ _ _ Hstep H1) as [?|[? _]];
      [by left|right; find_elem].
Qed.

Lemma run_started_removed DEPENDENCIES ls s s' effs x :
  run DEPENDENCIES s ls = Some (s', effs) → x ∈ startedAgents s →
  x ∈ startedAgents s' ∨ SetDelete x ∈ effs.
Proof.
  revert s effs. induction ls as [|l ls IH]; intros s effs; simpl.
  - intros [= <- <-]. auto.
  - destruct (step DEPENDENCIES s l) as [[s1 e1]|] eqn:Hstep; [|done].
    destruct (run DEPENDENCIES s1 ls) as [[s2 e2]|] eqn:Hrun; [|done].
    intros [= <- <-] Hx.
    destruct (step_started_removed _ _ _ _ _ _ Hstep Hx) as [H1|[? _]];
      [|right; find_elem].
    destruct (IH _ _ Hrun H1) as [?|?]; [by left|right; find_elem].
Qed.

(** [C9] Across any run of the event loop in which neither
    [startedAgents.add] nor [startedAgents.delete] is called, the contents
    of the registry are the same at the end as at the start, and so is the
    outcome of every dependency check. *)
Theorem snapshot_stable
    (DEPENDENCIES : jsobject) (s s' : state) (ls : list label) (effs : list effect) :
  run DEPENDENCIES s ls = Some (s', effs) →
  Forall (λ e, is_registry_mutation e = false) effs →
  snapshot s' = snapshot s ∧
  ∀ deps, all_deps_started deps (snapshot s') = all_deps_started deps (snapshot s).
Proof.
  intros Hrun Hquiet. rewrite Forall_forall in Hquiet.
  assert (snapshot s' = snapshot s) as Heq; [|by rewrite Heq].
  unfold snapshot. apply set_eq. intros x. split; intros Hx.
  - destruct (run_started_added _ _ _ _ _ _ Hrun Hx) as [?|Hadd]; [done|].
    by apply Hquiet in Hadd.
  - destruct (run_started_removed _ _ _ _ _ _ Hrun Hx) as [?|Hdel]; [done|].
    by apply Hquiet in Hdel.
Qed.

(** ** Agents that can never launch *)

Lemma spawnLoop_body_idle DEPENDENCIES agentName s a :
  idle a s →
  a ≠ agentName
  ∨ (∀ script pid,
       Spawn pid script a ∉ (spawnLoop_body DEPENDENCIES agentName s).2) →
  idle a (spawnLoop_body DEPENDENCIES agentName s).1.2.
Proof.
  intros [Hnot Hchild] Hcase.
  destruct (spawnLoop_body_case DEPENDENCIES agentName s); simpl in *;
    try done.
  assert (a ≠ agentName) as Hne.
  { destruct Hcase as [?|Hquiet]; [done|]. intros ->.
    eapply Hquiet. find_elem. }
  split; simpl.
  - set_solver.
  - intros pid. rewrite lookup_insert. case_decide; [congruence|done].
Qed.

Lemma idle_step DEPENDENCIES s l s' effs a :
  step DEPENDENCIES s l = Some (s', effs) → idle a s →
  (∀ script pid, Spawn pid script a ∉ effs) → idle a s'.
Proof.
  intros Hstep Hidle Hquiet. destruct l as [i|pid code|p|p]; simpl in Hstep.
  - destruct (loops s !! i) as [[b [ms|pid|]]|] eqn:Hi; try done.
    pose proof (spawnLoop_body_idle DEPENDENCIES b s a Hidle) as Hb.
    pose proof (spawnLoop_body_case DEPENDENCIES b s) as Hcase.
    destruct (spawnLoop_body DEPENDENCIES b s) as [[q t] e].
    injection Hstep as <- <-. simpl in *.
    assert (idle a t) as [? ?]; [|done].
    apply Hb. by right.
  - destruct (children s !! pid) as [b|]; [|done].
    injection Hstep as <- <-. destruct Hidle as [Hnot Hchild].
    split; simpl; [set_solver|].
    intros pid' [_ ?]%lookup_delete_Some. by eapply Hchild.
  - by injection Hstep as <- <-.
  - by injection Hstep as <- <-.
Qed.

(** The pass of the loop body of an agent inside a self-blocking set that
    is idle as a whole cannot spawn. *)
Lemma self_blocking_body DEPENDENCIES (B : string → Prop) agentName s :
  self_blocking DEPENDENCIES B → (∀ a, B a → idle a s) → B agentName →
  spawnLoop_body DEPENDENCIES agentName s = (AwaitSleep 1000, s, [Sleep 1000%N]).
Proof.
  intros Hblock Hidle (b & (deps & Hget & Hin) & Hb%Hidle)%Hblock.
  destruct Hb as [Hb _].
  pose proof (all_deps_started_missing _ _ _ Hin Hb) as Hfalse.
  unfold spawnLoop_body. by rewrite Hget, Hfalse.
Qed.

Lemma self_blocking_startAgent DEPENDENCIES (B : string → Prop) agentName s :
  self_blocking DEPENDENCIES B → (∀ a, B a → idle a s) →
  ∀ a, B a → idle a (startAgent DEPENDENCIES agentName s).1.
Proof.
  intros Hblock Hidle a Ha.
  pose proof (spawnLoop_body_idle DEPENDENCIES agentName s a (Hidle a Ha)) as Hb.
  unfold startAgent.
  destruct (decide (a = agentName)) as [->|Hne].
  - rewrite (self_blocking_body _ B) by done. by apply Hidle.
  - destruct (spawnLoop_body DEPENDENCIES agentName s) as [[p t] e].
    simpl in *. destruct Hb as [? ?]; [auto|done].
Qed.

Lemma self_blocking_step DEPENDENCIES (B : string → Prop) s l s' effs :
  self_blocking DEPENDENCIES B → (∀ a, B a → idle a s) →
  step DEPENDENCIES s l = Some (s', effs) →
  ∀ a, B a → idle a s'.
Proof.
  intros Hblock Hidle Hstep a Ha.
  eapply idle_step; [done|by apply Hidle|].
  intros script pid Hspawn. destruct l as [i|pid0 code|p|p]; simpl in Hstep.
  - destruct (loops s !! i) as [[b [ms|pid1|]]|] eqn:Hi; try done.
    pose proof (spawnLoop_body_case DEPENDENCIES b s) as Hcase.
    destruct (spawnLoop_body DEPENDENCIES b s) as [[q t] e] eqn:Hbody.
    injection Hstep as <- <-.
    inversion Hcase; subst; in_literal Hspawn.
    injection Hspawn as -> -> ->.
    rewrite (self_blocking_body _ B) in Hbody by done. done.
  - destruct (children s !! pid0); [|done].
    injection Hstep as <- <-. in_literal Hspawn.
  - injection Hstep as <- <-. in_literal Hspawn.
  - injection Hstep as <- <-. in_literal Hspawn.
Qed.

Lemma self_blocking_reachable DEPENDENCIES (B : string → Prop) P s :
  self_blocking DEPENDENCIES B → reachable_within DEPENDENCIES P s →
  ∀ a, B a → idle a s.
Proof.
  intros Hblock.
  induction 1 as [http fuel f s effs Hboot _|s l s' effs _ IH Hstep _].
  - eapply (boot_invariant DEPENDENCIES (λ t, ∀ a, B a → idle a t));
      [| | |done].
    + intros f0 a _. split; simpl; [set_solver|].
      intros pid. by rewrite lookup_empty.
    + intros agent t _ Ht. by apply self_blocking_startAgent.
    + intros t f' Ht a Ha. by apply Ht.
  - by eapply self_blocking_step.
Qed.

(** The agents on a dependency cycle block one another. *)
Lemma on_cycle_self_blocking DEPENDENCIES :
  self_blocking DEPENDENCIES (on_cycle DEPENDENCIES).
Proof.
  intros a Ha. unfold on_cycle in *.
  inversion Ha as [x y Hedge|x y z Hedge Hrest]; subst.
  - exists a. split; [done|by apply tc_once].
  - exists y. split; [done|]. eapply tc_r; done.
Qed.

Lemma boot_writes_runlevel_latch DEPENDENCIES http fuel f s effs :
  boot DEPENDENCIES http fuel f = Some (s, effs) →
  RUNLEVEL_LATCH ∈ fs s ∧ WriteFileSync RUNLEVEL_LATCH "RUNNING" ∈ effs.
Proof.
  unfold boot, main. destruct (module_init f) as [f1 e0].
  destruct (main_gate http fuel 0 0 f1) as [g|]; [|done].
  destruct (start_all _ _ _) as [s1 e1]. intros [= <- <-]. split.
  - simpl. by apply elem_of_union_l, elem_of_singleton.
  - find_elem.
Qed.

(** [C3, as the code has it] Boot completes for every table, cyclic or
    not: the readiness loop ends within 17 calls, one loop is created
    per key, and the runlevel latch is written.  No cycle is detected; an
    agent on a dependency cycle (a self-dependency included) is instead
    never launched: in every reachable state it is absent from the
    registry, has no child, and a pass of its loop body ends in the
    one-second wait. *)
Theorem boot_ignores_cycles (DEPENDENCIES : jsobject) :
  (∀ http f,
      ∃ s effs, boot DEPENDENCIES http 17 f = Some (s, effs) ∧
                (loops s).*1 = obj_keys DEPENDENCIES ∧
                RUNLEVEL_LATCH ∈ fs s ∧
                WriteFileSync RUNLEVEL_LATCH "RUNNING" ∈ effs) ∧
  (∀ a s,
      on_cycle DEPENDENCIES a → reachable DEPENDENCIES s →
      idle a s ∧
      spawnLoop_body DEPENDENCIES a s = (AwaitSleep 1000, s, [Sleep 1000%N])).
Proof.
  split.
  - intros http f.
    destruct (main_gate_terminates http 17 0 0 (module_init f).1) as [g Hg];
      [right; lia|].
    destruct (boot_completes DEPENDENCIES _ _ _ _ Hg) as (s & effs & Hboot).
    exists s, effs. split; [done|]. split; [by eapply boot_names|].
    by eapply boot_writes_runlevel_latch.
  - intros a s Hcycle Hreach.
    pose proof (on_cycle_self_blocking DEPENDENCIES) as Hblock.
    pose proof (self_blocking_reachable _ _ _ _ Hblock Hreach) as Hidle.
    split; [by apply Hidle|]. by eapply self_blocking_body.
Qed.

(** [C3, as stated, fails] The table whose agent "A" depends on itself
    contains a cycle, yet the supervisor does not refuse to start: boot
    completes, the loop of "A" is created and waits, and the runlevel
    latch is written. *)
Lemma self_dependency_boots :
  on_cycle self_dependent "A" ∧
  ¬ refuses_to_start self_dependent ∧
  loops (boot_state self_dependent always_ready 1 ∅) = [("A", AwaitSleep 1000)] ∧
  WriteFileSync RUNLEVEL_LATCH "RUNNING"
    ∈ boot_effects self_dependent always_ready 1 ∅.
Proof.
  split_and!.
  - apply tc_once. exists ["A"]. split; [done|]. apply list_elem_of_here.
  - intros Hrefuse.
    apply (Hrefuse always_ready 1 ∅
             (boot_state self_dependent always_ready 1 ∅)
             (boot_effects self_dependent always_ready 1 ∅)).
    by vm_compute.
  - by vm_compute.
  - vm_compute. find_elem.
Qed.

(** ** An agent whose script is missing *)

Lemma reachable_within_holds DEPENDENCIES (P : state → Prop) s :
  reachable_within DEPENDENCIES P s → P s.
Proof. by destruct 1. Qed.

(** With the script missing, a pass of the loop body can only wait. *)
Lemma missing_script_body DEPENDENCIES a s :
  a ∈ obj_keys DEPENDENCIES → script_of a ∉ fs s →
  ∃ deps, obj_get DEPENDENCIES a = Some deps ∧
    spawnLoop_body DEPENDENCIES a s
    = if all_deps_started deps (startedAgents s)
      then (AwaitSleep 5000, s,
            [ExistsSync (script_of a) false;
             ConsoleError (msg_script_missing a (script_of a));
             Sleep 5000%N])
      else (AwaitSleep 1000, s, [Sleep 1000%N]).
Proof.
  intros [deps Hget]%obj_get_is_Some Hmissing. exists deps. split; [done|].
  unfold spawnLoop_body. rewrite Hget.
  destruct (all_deps_started deps (startedAgents s)); simpl; [|done].
  by rewrite bool_decide_eq_false_2.
Qed.

Lemma missing_script_startAgent DEPENDENCIES a agentName s :
  a ∈ obj_keys DEPENDENCIES → script_of a ∉ fs s →
  idle a s ∧ retrying a s →
  idle a (startAgent DEPENDENCIES agentName s).1
  ∧ retrying a (startAgent DEPENDENCIES agentName s).1.
Proof.
  intros Hkey Hmissing [Hidle Hretry].
  pose proof (startAgent_loops DEPENDENCIES agentName s) as Hl.
  pose proof (spawnLoop_body_idle DEPENDENCIES agentName s a Hidle) as Hb.
  unfold startAgent in *.
  destruct (decide (a = agentName)) as [<-|Hne].
  - destruct (missing_script_body DEPENDENCIES a s) as (deps & _ & Hbody);
      [done..|].
    clear Hb Hl.
    destruct (all_deps_started deps (startedAgents s));
      rewrite Hbody; simpl.
    all: split; [done|]; intros p; simpl.
    all: intros [?|[= ->]%list_elem_of_singleton]%elem_of_app; auto.
  - destruct (spawnLoop_body DEPENDENCIES agentName s) as [[q t] e].
    simpl in *. split; [destruct Hb as [? ?]; by auto|].
    intros p. rewrite Hl.
    intros [?|[= ? ?]%list_elem_of_singleton]%elem_of_app; by auto.
Qed.

Lemma missing_script_step DEPENDENCIES a s l s' effs :
  a ∈ obj_keys DEPENDENCIES → script_of a ∉ fs s →
  idle a s ∧ retrying a s →
  step DEPENDENCIES s l = Some (s', effs) →
  idle a s' ∧ retrying a s'.
Proof.
  intros Hkey Hmissing [Hidle Hretry] Hstep.
  destruct (missing_script_body DEPENDENCIES a s) as (deps & _ & Hbody);
    [done..|].
  split.
  - eapply idle_step; [done..|]. intros script pid Hspawn.
    destruct l as [i|pid0 code|p|p]; simpl in Hstep.
    + destruct (loops s !! i) as [[b [ms|pid1|]]|] eqn:Hi; try done.
      pose proof (spawnLoop_body_case DEPENDENCIES b s) as Hcase.
      destruct (spawnLoop_body DEPENDENCIES b s) as [[q t] e] eqn:Hb.
      injection Hstep as <- <-.
      inversion Hcase; subst; in_literal Hspawn.
      injection Hspawn as -> -> ->. rewrite Hbody in Hb.
      by destruct (all_deps_started deps (startedAgents s)).
    + destruct (children s !! pid0); [|done].
      injection Hstep as <- <-. in_literal Hspawn.
    + injection Hstep as <- <-. in_literal Hspawn.
    + injection Hstep as <- <-. in_literal Hspawn.
  - intros p Hin. destruct l as [i|pid0 code|p0|p0]; simpl in Hstep.
    + destruct (loops s !! i) as [[b [ms|pid1|]]|] eqn:Hi; try done.
      pose proof (spawnLoop_body_loops DEPENDENCIES b s) as Hl.
      destruct (spawnLoop_body DEPENDENCIES b s) as [[q t] e] eqn:Hb.
      injection Hstep as <- <-. simpl in *. rewrite Hl in Hin.
      apply list_elem_of_lookup in Hin as [j Hj].
      destruct (decide (i = j)) as [<-|Hne].
      * rewrite list_lookup_insert_eq in Hj by (by eapply lookup_lt_Some).
        injection Hj as -> <-. rewrite Hbody in Hb.
        destruct (all_deps_started deps (startedAgents s));
          injection Hb as <- _ _; auto.
      * rewrite list_lookup_insert_ne in Hj by done.
        by eapply Hretry, list_elem_of_lookup_2.
    + destruct (children s !! pid0); [|done].
      injection Hstep as <- <-. simpl in Hin.
      apply list_elem_of_fmap in Hin as ([b q] & Heq & Hin).
      unfold on_exit in Heq. simpl in Heq. case_decide as Hq.
      * injection Heq as -> ->. apply Hretry in Hin. subst q.
        destruct Hin; done.
      * injection Heq as -> ->. by apply Hretry.
    + injection Hstep as <- <-. by apply Hretry.
    + injection Hstep as <- <-. by apply Hretry.
Qed.

Lemma missing_script_reachable DEPENDENCIES a s :
  a ∈ obj_keys DEPENDENCIES →
  reachable_within DEPENDENCIES (λ t, script_of a ∉ fs t) s →
  idle a s ∧ retrying a s.
Proof.
  intros Hkey.
  induction 1 as [http fuel f s effs Hboot Hs|s l s' effs Hreach IH Hstep _].
  - apply boot_inv in Hboot as (g & s1 & _ & Hs1 & ->).
    assert (script_of a ∉ gate_fs g) as Hmissing.
    { simpl in Hs. rewrite Hs1, start_all_fs in Hs. simpl in Hs. set_solver. }
    cut (fs s1 = gate_fs g ∧ idle a s1 ∧ retrying a s1); [by intros (_ & ? & ?)|].
    rewrite Hs1.
    apply (start_all_invariant DEPENDENCIES
             (λ t, fs t = gate_fs g ∧ idle a t ∧ retrying a t)).
    + intros agent t _ (Hfs & Hidle & Hretry). rewrite startAgent_fs.
      split; [done|]. apply missing_script_startAgent; [done| |done].
      by rewrite Hfs.
    + split; [done|]. split; [split|]; simpl.
      * set_solver.
      * intros pid. by rewrite lookup_empty.
      * by intros p ?%elem_of_nil.
  - eapply missing_script_step; [done| |done..].
    by apply reachable_within_holds in Hreach.
Qed.

(** Once the script is there and the dependencies are live, the next pass
    of the loop launches the agent. *)
Lemma script_created_then_launch DEPENDENCIES a deps s i ms :
  loops s !! i = Some (a, AwaitSleep ms) →
  obj_get DEPENDENCIES a = Some deps →
  all_deps_started deps (startedAgents s) = true →
  ∃ s2 e2,
    run DEPENDENCIES s [EnvCreate (script_of a); TimerFires i] = Some (s2, e2) ∧
    a ∈ startedAgents s2 ∧
    children s2 !! next_pid s = Some a ∧
    loops s2 !! i = Some (a, AwaitExit (next_pid s)).
Proof.
  intros Hi Hget Hall. simpl. rewrite Hi. unfold spawnLoop_body.
  rewrite Hget. simpl. rewrite Hall. simpl.
  rewrite bool_decide_eq_true_2 by set_solver. simpl.
  eexists _, _. split; [done|]. simpl. split_and!.
  - set_solver.
  - apply lookup_insert_eq.
  - apply list_lookup_insert_eq. by eapply lookup_lt_Some.
Qed.

(** [C8, as the code has it] Along any run in which the script of an agent of the table never
    exists, in every state: the agent is not in the registry and has no
    child; its loop exists and is suspended in one of the two retry
    sleeps, never rejected; when its timer fires the loop runs one more
    pass that either waits a second for dependencies or, with all of them
    live, finds the script missing, logs that, and sleeps five seconds;
    and the condition is recoverable: were the script created, a pass with
    all dependencies live would launch the agent. *)
Theorem missing_script_never_live
    (DEPENDENCIES : jsobject) (a : string) (s : state) :
  a ∈ obj_keys DEPENDENCIES →
  reachable_within DEPENDENCIES (λ t, script_of a ∉ fs t) s →
  (a ∉ snapshot s) ∧
  (∀ pid, children s !! pid ≠ Some a) ∧
  (∃ i p, loops s !! i = Some (a, p)) ∧
  (∀ i p, loops s !! i = Some (a, p) →
     (p = AwaitSleep 1000 ∨ p = AwaitSleep 5000) ∧
     ∃ deps, obj_get DEPENDENCIES a = Some deps ∧
       step DEPENDENCIES s (TimerFires i)
       = Some (if all_deps_started deps (snapshot s)
               then (set_loops (<[i := (a, AwaitSleep 5000)]> (loops s)) s,
                     [ExistsSync (script_of a) false;
                      ConsoleError (msg_script_missing a (script_of a));
                      Sleep 5000%N])
               else (set_loops (<[i := (a, AwaitSleep 1000)]> (loops s)) s,
                     [Sleep 1000%N])) ∧
       (all_deps_started deps (snapshot s) = true →
        ∃ s2 e2,
          run DEPENDENCIES s [EnvCreate (script_of a); TimerFires i]
          = Some (s2, e2) ∧
          a ∈ snapshot s2 ∧ loops s2 !! i = Some (a, AwaitExit (next_pid s)))).
Proof.
  intros Hkey Hreach.
  pose proof (missing_script_reachable _ _ _ Hkey Hreach) as [[Hnot Hchild] Hretry].
  pose proof (reachable_names _ _ _ Hreach) as Hnames.
  pose proof (reachable_within_holds _ _ _ Hreach) as Hmissing.
  simpl in Hmissing. split_and!; try done.
  - rewrite <- Hnames in Hkey.
    apply list_elem_of_lookup in Hkey as [i Hi].
    rewrite list_lookup_fmap in Hi.
    destruct (loops s !! i) as [[b p]|] eqn:Hl; [|done].
    injection Hi as ->. eauto.
  - intros i p Hi.
    pose proof (Hretry p (list_elem_of_lookup_2 _ _ _ Hi)) as Hp.
    split; [done|].
    destruct (missing_script_body DEPENDENCIES a s) as (deps & Hget & Hbody);
      [done..|].
    exists deps. split; [done|]. unfold snapshot. split.
    + simpl. rewrite Hi.
      destruct Hp as [-> | ->]; rewrite Hbody;
        by destruct (all_deps_started deps (startedAgents s)).
    + intros Hall.
      destruct Hp as [-> | ->];
        (edestruct script_created_then_launch as (s2 & e2 & ? & ? & _ & ?);
         [done..|by exists s2, e2]).
Qed.

(** [C8, as stated, fails] In the program's table WAVE depends on CORE.
    Booted with no script at all, WAVE's script never exists, yet its loop
    is not in the launching retry: it sits in the one-second dependency
    wait, boot has logged no missing-script message for it, and when its
    timer fires the pass only sleeps another second, without testing for
    the script or logging. *)
Lemma dependent_waits_silently :
  "WAVE" ∈ obj_keys Nexus.DEPENDENCIES ∧
  reachable_within Nexus.DEPENDENCIES (λ t, script_of "WAVE" ∉ fs t) booted_bare ∧
  ¬ in_launch_retry "WAVE" booted_bare ∧
  loops booted_bare !! 1 = Some ("WAVE", AwaitSleep 1000) ∧
  (ConsoleError (msg_script_missing "WAVE" (script_of "WAVE"))
     ∉ boot_effects Nexus.DEPENDENCIES always_ready 1 ∅) ∧
  step Nexus.DEPENDENCIES booted_bare (TimerFires 1)
  = Some (booted_bare, [Sleep 1000%N]).
Proof.
  split_and!.
  - by_evaluation.
  - apply (reach_boot _ _ always_ready 1 ∅ _
             (boot_effects Nexus.DEPENDENCIES always_ready 1 ∅));
      [by vm_compute|cbv beta; by_evaluation].
  - intros Hretry. by specialize (Hretry 1 (AwaitSleep 1000) eq_refl).
  - by vm_compute.
  - by_evaluation.
  - by vm_compute.
Qed.

(** ** Process exit *)

Lemma step_exit_inv DEPENDENCIES s pid code s' effs :
  step DEPENDENCIES s (ProcExit pid code) = Some (s', effs) →
  ∃ a, children s !! pid = Some a ∧
       s' = State (fs s) (startedAgents s ∖ {[a]}) (on_exit pid <$> loops s)
                  (delete pid (children s)) (next_pid s) ∧
       effs = [ConsoleLog (msg_exited a code); SetDelete a; Sleep 2000%N].
Proof.
  simpl. destruct (children s !! pid) as [a|]; [|done].
  intros [= <- <-]. eauto.
Qed.

(** [C4] The 'exit' listener, for any exit code: it logs, deletes the
    agent's name from the registry, and only then arms the two-second
    restart timer, all in one atomic step.  In the state it leaves, the
    exited agent is absent from the registry, the loop that awaited the
    exit is in the restart delay, the pass of the loop body of any agent
    that declares the exited one as a dependency ends in the one-second
    wait, and the name stays absent over any further run until a
    [startedAgents.add] of it. *)
Theorem exit_clears_registry_first
    (DEPENDENCIES : jsobject) (s s' : state) (pid : nat) (code : option N)
    (effs : list effect) :
  step DEPENDENCIES s (ProcExit pid code) = Some (s', effs) →
  ∃ a, children s !! pid = Some a ∧
    effs = [ConsoleLog (msg_exited a code); SetDelete a; Sleep 2000%N] ∧
    (a ∉ snapshot s') ∧
    children s' !! pid = None ∧
    (∀ i b, loops s !! i = Some (b, AwaitExit pid) →
            loops s' !! i = Some (b, AwaitSleep 2000)) ∧
    (∀ b deps, obj_get DEPENDENCIES b = Some deps → a ∈ deps →
               spawnLoop_body DEPENDENCIES b s'
               = (AwaitSleep 1000, s', [Sleep 1000%N])) ∧
    (∀ ls s'' effs', run DEPENDENCIES s' ls = Some (s'', effs') →
                     SetAdd a ∉ effs' → a ∉ snapshot s'').
Proof.
  intros (a & Ha & -> & ->)%step_exit_inv. exists a.
  assert (a ∉ startedAgents s ∖ {[a]}) as Hgone by set_solver.
  split_and!; try done.
  - simpl. apply lookup_delete_eq.
  - intros i b Hi. simpl. rewrite list_lookup_fmap, Hi. simpl.
    unfold on_exit. simpl. by rewrite decide_True.
  - intros b deps Hget Hin. unfold spawnLoop_body. rewrite Hget. simpl.
    by rewrite (all_deps_started_missing deps _ a).
  - intros ls s'' effs' Hrun Hquiet Hin.
    destruct (run_started_added _ _ _ _ _ _ Hrun Hin); done.
Qed.

(** ** Who writes the registry *)

Lemma step_add_inv DEPENDENCIES s l s' effs a :
  step DEPENDENCIES s l = Some (s', effs) → SetAdd a ∈ effs →
  ∃ i ms deps,
    l = TimerFires i ∧ loops s !! i = Some (a, AwaitSleep ms) ∧
    obj_get DEPENDENCIES a = Some deps ∧
    all_deps_started deps (startedAgents s) = true ∧
    script_of a ∈ fs s ∧
    s' = State (fs s) ({[a]} ∪ startedAgents s)
               (<[i := (a, AwaitExit (next_pid s))]> (loops s))
               (<[next_pid s := a]> (children s)) (S (next_pid s)) ∧
    effs = [ExistsSync (script_of a) true;
            ConsoleLog (msg_starting a);
            Spawn (next_pid s) (script_of a) a;
            CreateWriteStream (logFile_of a);
            SetAdd a].
Proof.
  intros Hstep Hadd. destruct l as [i|pid code|p|p]; simpl in Hstep.
  - destruct (loops s !! i) as [[b [ms|pid|]]|] eqn:Hi; try done.
    pose proof (spawnLoop_body_case DEPENDENCIES b s) as Hcase.
    destruct (spawnLoop_body DEPENDENCIES b s) as [[q t] e].
    injection Hstep as <- <-.
    inversion Hcase; subst; in_literal Hadd.
    injection Hadd as ->. exists i, ms, deps. by split_and!.
  - destruct (children s !! pid); [|done].
    injection Hstep as <- <-. in_literal Hadd.
  - injection Hstep as <- <-. in_literal Hadd.
  - injection Hstep as <- <-. in_literal Hadd.
Qed.

(** [C6] In any step: the membership of an agent other than the one the
    label belongs to is unchanged (steps of the outside world change
    nothing); a [startedAgents.add] happens only in a pass of the agent's
    own loop, in the same atomic section as, and after, the spawn of its
    process, and leaves the agent in the registry with a live child; and
    the exit of a child, with any code, deletes the name of that child's
    agent in the same step. *)
Theorem registry_written_by_owner
    (DEPENDENCIES : jsobject) (s s' : state) (l : label) (effs : list effect) :
  step DEPENDENCIES s l = Some (s', effs) →
  (∀ b, label_agent s l ≠ Some b →
        (b ∈ startedAgents s' ↔ b ∈ startedAgents s)) ∧
  (∀ a, SetAdd a ∈ effs →
        ∃ i ms, l = TimerFires i ∧ loops s !! i = Some (a, AwaitSleep ms) ∧
          effs = [ExistsSync (script_of a) true;
                  ConsoleLog (msg_starting a);
                  Spawn (next_pid s) (script_of a) a;
                  CreateWriteStream (logFile_of a);
                  SetAdd a] ∧
          children s' !! next_pid s = Some a ∧ a ∈ startedAgents s') ∧
  (∀ pid script a, Spawn pid script a ∈ effs →
        SetAdd a ∈ effs ∧ a ∈ startedAgents s') ∧
  (∀ pid code, l = ProcExit pid code →
        ∃ a, children s !! pid = Some a ∧
          effs = [ConsoleLog (msg_exited a code); SetDelete a; Sleep 2000%N] ∧
          a ∉ startedAgents s').
Proof.
  intros Hstep. split_and!.
  - intros b Hb. split; intros Hin.
    + destruct (step_started_added _ _ _ _ _ _ Hstep Hin) as [?|[_ ?]]; done.
    + destruct (step_started_removed _ _ _ _ _ _ Hstep Hin) as [?|[_ ?]]; done.
  - intros a Hadd.
    destruct (step_add_inv _ _ _ _ _ _ Hstep Hadd)
      as (i & ms & deps & -> & Hi & _ & _ & _ & -> & ->).
    exists i, ms. split_and!; try done.
    + simpl. apply lookup_insert_eq.
    + simpl. set_solver.
  - intros pid script a Hspawn.
    assert (SetAdd a ∈ effs) as Hadd.
    { destruct l as [i|pid0 code|p|p]; simpl in Hstep.
      - destruct (loops s !! i) as [[b [ms|pid1|]]|] eqn:Hi; try done.
        pose proof (spawnLoop_body_case DEPENDENCIES b s) as Hcase.
        destruct (spawnLoop_body DEPENDENCIES b s) as [[q t] e].
        injection Hstep as <- <-.
        inversion Hcase; subst; in_literal Hspawn.
        injection Hspawn as -> -> ->. find_elem.
      - destruct (children s !! pid0); [|done].
        injection Hstep as <- <-. in_literal Hspawn.
      - injection Hstep as <- <-. in_literal Hspawn.
      - injection Hstep as <- <-. in_literal Hspawn. }
    split; [done|].
    destruct (step_add_inv _ _ _ _ _ _ Hstep Hadd)
      as (i & ms & deps & -> & Hi & _ & _ & _ & -> & ->).
    simpl. set_solver.
  - intros pid code ->.
    apply step_exit_inv in Hstep as (a & Ha & -> & ->).
    exists a. split_and!; try done. simpl. set_solver.
Qed.

(** ** Order of the checks in the loop body *)

(** [C10] In a pass of the loop body, the dependency check comes first:
    while a declared dependency is absent from the registry, the pass
    consists of the one-second sleep alone and neither tests for the
    script nor logs; a pass that tests for the script or logs it missing
    saw every declared dependency live, and the missing-script message is
    logged only with the script absent. *)
Theorem deps_checked_before_script
    (DEPENDENCIES : jsobject) (agentName : string) (deps : list string)
    (s s' : state) (p : pc) (effs : list effect) :
  obj_get DEPENDENCIES agentName = Some deps →
  spawnLoop_body DEPENDENCIES agentName s = (p, s', effs) →
  ((∃ dep, dep ∈ deps ∧ dep ∉ startedAgents s) →
     p = AwaitSleep 1000 ∧ s' = s ∧ effs = [Sleep 1000%N] ∧
     Forall (λ e, touches_script e = false) effs) ∧
  ((∃ e, e ∈ effs ∧ touches_script e = true) →
     (∀ dep, dep ∈ deps → dep ∈ startedAgents s) ∧
     ∃ rest, effs = ExistsSync (script_of agentName)
                      (bool_decide (script_of agentName ∈ fs s)) :: rest) ∧
  (ConsoleError (msg_script_missing agentName (script_of agentName)) ∈ effs →
     (∀ dep, dep ∈ deps → dep ∈ startedAgents s) ∧
     (script_of agentName ∉ fs s) ∧ p = AwaitSleep 5000 ∧ s' = s).
Proof.
  intros Hget Hbody.
  pose proof (spawnLoop_body_case DEPENDENCIES agentName s) as Hcase.
  rewrite Hbody in Hcase. split_and!.
  - intros (dep & Hin & Hnot).
    pose proof (all_deps_started_missing _ _ _ Hin Hnot) as Hfalse.
    inversion Hcase; simplify_eq; try congruence.
    split_and!; try done. by repeat constructor.
  - intros (e & Hin & He).
    inversion Hcase; simplify_eq; in_literal Hin; try (by subst e).
    all: split; [by apply all_deps_started_spec|].
    all: eexists.
    all: by rewrite ?bool_decide_eq_false_2, ?bool_decide_eq_true_2 by done.
  - intros Hin.
    inversion Hcase; simplify_eq; in_literal Hin.
    split_and!; try done. by apply all_deps_started_spec.
Qed.

(** * The properties at sample inputs *)

(** [C1] at the program's table: WAVE is launched with CORE live. *)
Lemma launch_requires_live_deps_witness :
  let pass := spawnLoop_body Nexus.DEPENDENCIES "WAVE" core_live in
  obj_get Nexus.DEPENDENCIES "WAVE" = Some ["CORE"] ∧
  pass.1.1 = AwaitExit 0 ∧
  ((all_deps_started ["CORE"] (snapshot core_live) = true
      ↔ ∀ dep, dep ∈ ["CORE"] → dep ∈ snapshot core_live) ∧
   ((∃ dep, dep ∈ ["CORE"] ∧ dep ∉ startedAgents core_live) →
      pass.1.1 = AwaitSleep 1000 ∧ pass.1.2 = core_live ∧ pass.2 = [Sleep 1000%N]) ∧
   ((∃ pid, pass.1.1 = AwaitExit pid
            ∨ children pass.1.2 !! pid ≠ children core_live !! pid
            ∨ ∃ script, Spawn pid script "WAVE" ∈ pass.2) →
      ∀ dep, dep ∈ ["CORE"] → dep ∈ startedAgents core_live)).
Proof.
  intros pass. split; [reflexivity|]. split; [vm_compute; reflexivity|].
  apply (launch_requires_live_deps Nexus.DEPENDENCIES "WAVE" ["CORE"]
           core_live pass.1.2 pass.1.1 pass.2).
  - reflexivity.
  - vm_compute. reflexivity.
Defined.

(** [C2] at the program's table, after CORE has exited and been
    relaunched: its new handle is the only one of that name. *)
Lemma at_most_one_child_per_agent_witness :
  NoDup (obj_keys Nexus.DEPENDENCIES) ∧
  reachable Nexus.DEPENDENCIES after_core_restart ∧
  children after_core_restart !! 9 = Some "CORE" ∧
  (∀ pid1 pid2 a,
      children after_core_restart !! pid1 = Some a →
      children after_core_restart !! pid2 = Some a → pid1 = pid2).
Proof.
  assert (NoDup (obj_keys Nexus.DEPENDENCIES)) as Hnd by by_evaluation.
  assert (reachable Nexus.DEPENDENCIES after_core_restart) as Hreach.
  { apply (reach_step _ _ after_core_exit core_restart _
             (run_effects Nexus.DEPENDENCIES after_core_exit [core_restart]));
      [|vm_compute; reflexivity|exact I].
    apply (reach_step _ _ booted core_exit _
             (run_effects Nexus.DEPENDENCIES booted [core_exit]));
      [|vm_compute; reflexivity|exact I].
    apply (reach_boot _ _ always_ready 1 all_scripts _
             (boot_effects Nexus.DEPENDENCIES always_ready 1 all_scripts));
      [vm_compute; reflexivity|exact I]. }
  split; [exact Hnd|]. split; [exact Hreach|]. split; [vm_compute; reflexivity|].
  exact (proj1 (at_most_one_child_per_agent Nexus.DEPENDENCIES
                  after_core_restart Hnd Hreach)).
Defined.

(** [C3] at the self-dependent table: boot completes and "A" stays idle. *)
Lemma boot_ignores_cycles_witness :
  on_cycle self_dependent "A" ∧
  reachable self_dependent (boot_state self_dependent always_ready 1 ∅) ∧
  (∃ s effs, boot self_dependent never_ready 17 ∅ = Some (s, effs) ∧
             (loops s).*1 = ["A"]) ∧
  idle "A" (boot_state self_dependent always_ready 1 ∅).
Proof.
  assert (on_cycle self_dependent "A") as Hcycle.
  { apply tc_once. exists ["A"]. split; [reflexivity|apply list_elem_of_here]. }
  assert (reachable self_dependent (boot_state self_dependent always_ready 1 ∅))
    as Hreach.
  { apply (reach_boot _ _ always_ready 1 ∅ _
             (boot_effects self_dependent always_ready 1 ∅));
      [vm_compute; reflexivity|exact I]. }
  destruct (boot_ignores_cycles self_dependent) as [Hboot Hblocked].
  split; [exact Hcycle|]. split; [exact Hreach|]. split.
  - destruct (Hboot never_ready ∅) as (s & effs & Hs & Hnames & _).
    exists s, effs. split; [exact Hs|exact Hnames].
  - exact (proj1 (Hblocked "A" _ Hcycle Hreach)).
Defined.

(** [C4] at the exit of CORE's child with code 1. *)
Lemma exit_clears_registry_first_witness :
  step Nexus.DEPENDENCIES booted core_exit
  = Some (after_core_exit, run_effects Nexus.DEPENDENCIES booted [core_exit]) ∧
  "CORE" ∈ snapshot booted ∧
  ∃ a, children booted !! 0 = Some a ∧
       run_effects Nexus.DEPENDENCIES booted [core_exit]
       = [ConsoleLog (msg_exited a (Some 1%N)); SetDelete a; Sleep 2000%N] ∧
       (a ∉ snapshot after_core_exit).
Proof.
  assert (step Nexus.DEPENDENCIES booted core_exit
          = Some (after_core_exit,
                  run_effects Nexus.DEPENDENCIES booted [core_exit])) as Hstep
    by (vm_compute; reflexivity).
  split; [exact Hstep|]. split; [by_evaluation|].
  destruct (exit_clears_registry_first _ _ _ _ _ _ Hstep)
    as (a & Ha & Heffs & Hgone & _).
  exists a. split; [exact Ha|]. split; [exact Heffs|exact Hgone].
Defined.

(** [C5] from an empty file system, with a health check that is never up
    and with one that is up from the third call on. *)
Lemma readiness_gate_outcomes_witness :
  (OLLAMA_LATCH ∉ (∅ : gset string)) ∧ 17 ≤ 17 ∧
  (∃ g, main_gate never_ready 17 0 0 ∅ = Some g ∧
        gate_calls g = 17 ∧ gate_retries g = 16 ∧ OLLAMA_LATCH ∈ gate_fs g) ∧
  (∃ g, main_gate ready_on_third_call 17 0 0 ∅ = Some g ∧
        gate_calls g = 3 ∧ (OLLAMA_LATCH ∉ gate_fs g)).
Proof.
  assert (OLLAMA_LATCH ∉ (∅ : gset string)) as Hlatch by by_evaluation.
  assert (17 ≤ 17) as Hfuel by lia.
  split; [exact Hlatch|]. split; [exact Hfuel|]. split.
  - destruct (proj1 (readiness_gate_outcomes never_ready 17 ∅ Hlatch Hfuel))
      as (g & Hg & Hc & Hr & Hin & _); [reflexivity|].
    exists g. repeat split; assumption.
  - destruct (proj2 (readiness_gate_outcomes ready_on_third_call 17 ∅ Hlatch Hfuel))
      as (g & Hg & Hc & _ & _ & Hnot & _); [reflexivity..|].
    exists g. repeat split; assumption.
Defined.

(** [C6] at the relaunch of CORE: WAVE's membership is untouched. *)
Lemma registry_written_by_owner_witness :
  step Nexus.DEPENDENCIES after_core_exit core_restart
  = Some (after_core_restart,
          run_effects Nexus.DEPENDENCIES after_core_exit [core_restart]) ∧
  SetAdd "CORE" ∈ run_effects Nexus.DEPENDENCIES after_core_exit [core_restart] ∧
  ("WAVE" ∈ startedAgents after_core_restart ↔ "WAVE" ∈ startedAgents after_core_exit) ∧
  "CORE" ∈ startedAgents after_core_restart.
Proof.
  assert (step Nexus.DEPENDENCIES after_core_exit core_restart
          = Some (after_core_restart,
                  run_effects Nexus.DEPENDENCIES after_core_exit [core_restart]))
    as Hstep by (vm_compute; reflexivity).
  assert (SetAdd "CORE"
            ∈ run_effects Nexus.DEPENDENCIES after_core_exit [core_restart])
    as Hadd by by_evaluation.
  destruct (registry_written_by_owner _ _ _ _ _ Hstep) as (Hother & Hown & _).
  split; [exact Hstep|]. split; [exact Hadd|]. split.
  - apply Hother. vm_compute. discriminate.
  - destruct (Hown "CORE" Hadd) as (i & ms & _ & _ & _ & _ & Hin). exact Hin.
Defined.

(** [C7] with only the latch file present and a health check that is
    never up. *)
Lemma stale_latch_opens_gate_witness :
  OLLAMA_LATCH ∈ ({[OLLAMA_LATCH]} : gset string) ∧ 0 < 1 ∧
  (∃ g, main_gate never_ready 1 0 0 {[OLLAMA_LATCH]} = Some g ∧
        gate_calls g = 1 ∧ gate_retries g = 0) ∧
  (∃ s effs, boot Nexus.DEPENDENCIES never_ready 1 {[OLLAMA_LATCH]}
             = Some (s, effs) ∧ OLLAMA_LATCH ∈ fs s).
Proof.
  assert (OLLAMA_LATCH ∈ ({[OLLAMA_LATCH]} : gset string)) as Hlatch
    by by_evaluation.
  assert (0 < 1) as Hfuel by lia.
  destruct (stale_latch_opens_gate Nexus.DEPENDENCIES never_ready 1
              {[OLLAMA_LATCH]} Hlatch Hfuel)
    as ((g & Hg & Hc & Hr & _) & Hboot & _).
  split; [exact Hlatch|]. split; [exact Hfuel|]. split; [|exact Hboot].
  exists g. repeat split; assumption.
Defined.

(** [C8] at the program's table with no script at all, for CORE. *)
Lemma missing_script_never_live_witness :
  "CORE" ∈ obj_keys Nexus.DEPENDENCIES ∧
  reachable_within Nexus.DEPENDENCIES (λ t, script_of "CORE" ∉ fs t)
    (run_state Nexus.DEPENDENCIES booted_bare quiet_labels) ∧
  ("CORE" ∉ snapshot (run_state Nexus.DEPENDENCIES booted_bare quiet_labels)) ∧
  loops (run_state Nexus.DEPENDENCIES booted_bare quiet_labels) !! 0
  = Some ("CORE", AwaitSleep 5000).
Proof.
  assert ("CORE" ∈ obj_keys Nexus.DEPENDENCIES) as Hkey by by_evaluation.
  assert (reachable_within Nexus.DEPENDENCIES (λ t, script_of "CORE" ∉ fs t)
            (run_state Nexus.DEPENDENCIES booted_bare quiet_labels)) as Hreach.
  { apply (reach_step _ _
             (run_state Nexus.DEPENDENCIES booted_bare
                [TimerFires 0; EnvCreate "/tmp/x"])
             (TimerFires 1) _ [Sleep 1000%N]);
      [|vm_compute; reflexivity|cbv beta; by_evaluation].
    apply (reach_step _ _
             (run_state Nexus.DEPENDENCIES booted_bare [TimerFires 0])
             (EnvCreate "/tmp/x") _ []);
      [|vm_compute; reflexivity|cbv beta; by_evaluation].
    apply (reach_step _ _ booted_bare (TimerFires 0) _
             (run_effects Nexus.DEPENDENCIES booted_bare [TimerFires 0]));
      [|vm_compute; reflexivity|cbv beta; by_evaluation].
    apply (reach_boot _ _ always_ready 1 ∅ _
             (boot_effects Nexus.DEPENDENCIES always_ready 1 ∅));
      [vm_compute; reflexivity|cbv beta; by_evaluation]. }
  split; [exact Hkey|]. split; [exact Hreach|].
  split; [|vm_compute; reflexivity].
  exact (proj1 (missing_script_never_live Nexus.DEPENDENCIES "CORE" _ Hkey Hreach)).
Defined.

(** [C9] over three steps in which no agent is launched or exits. *)
Lemma snapshot_stable_witness :
  run Nexus.DEPENDENCIES booted_bare quiet_labels
  = Some (run_state Nexus.DEPENDENCIES booted_bare quiet_labels,
          run_effects Nexus.DEPENDENCIES booted_bare quiet_labels) ∧
  Forall (λ e, is_registry_mutation e = false)
    (run_effects Nexus.DEPENDENCIES booted_bare quiet_labels) ∧
  snapshot (run_state Nexus.DEPENDENCIES booted_bare quiet_labels)
  = snapshot booted_bare.
Proof.
  assert (run Nexus.DEPENDENCIES booted_bare quiet_labels
          = Some (run_state Nexus.DEPENDENCIES booted_bare quiet_labels,
                  run_effects Nexus.DEPENDENCIES booted_bare quiet_labels))
    as Hrun by (vm_compute; reflexivity).
  assert (Forall (λ e, is_registry_mutation e = false)
            (run_effects Nexus.DEPENDENCIES booted_bare quiet_labels))
    as Hquiet by by_evaluation.
  split; [exact Hrun|]. split; [exact Hquiet|].
  exact (proj1 (snapshot_stable _ _ _ _ _ Hrun Hquiet)).
Defined.

(** [C10] at the program's table: WAVE with nothing live. *)
Lemma deps_checked_before_script_witness :
  let pass := spawnLoop_body Nexus.DEPENDENCIES "WAVE" nothing_live in
  obj_get Nexus.DEPENDENCIES "WAVE" = Some ["CORE"] ∧
  (∃ dep, dep ∈ ["CORE"] ∧ dep ∉ startedAgents nothing_live) ∧
  pass = (AwaitSleep 1000, nothing_live, [Sleep 1000%N]) ∧
  Forall (λ e, touches_script e = false) pass.2.
Proof.
  intros pass.
  assert (obj_get Nexus.DEPENDENCIES "WAVE" = Some ["CORE"]) as Hget
    by reflexivity.
  assert (∃ dep, dep ∈ ["CORE"] ∧ dep ∉ startedAgents nothing_live) as Hmiss.
  { exists "CORE". split; by_evaluation. }
  assert (pass = (pass.1.1, pass.1.2, pass.2)) as Hpass
    by (vm_compute; reflexivity).
  destruct (proj1 (deps_checked_before_script Nexus.DEPENDENCIES "WAVE"
                     ["CORE"] nothing_live _ _ _ Hget Hpass) Hmiss)
    as (Hp & Hs & Heffs & Hquiet).
  split; [exact Hget|]. split; [exact Hmiss|]. split; [|exact Hquiet].
  rewrite Hpass, Hp, Hs, Heffs. reflexivity.
Defined.

(** * Further properties of the supervisor *)

(** ** The readiness loop, for any health check *)

Lemma checkOllamaReady_true httpOk f e :
  checkOllamaReady httpOk f = (true, e) →
  (httpOk = true ∨ OLLAMA_LATCH ∈ f) ∧ Forall (λ x, is_write x = false) e.
Proof.
  unfold checkOllamaReady. destruct httpOk.
  - intros [= <-]. split; [by left|by repeat constructor].
  - case_bool_decide; intros [= <-]. split; [by right|by repeat constructor].
Qed.

(** What holds when the loop is left, started with [calls = retries = n]. *)
Lemma main_gate_exit http fuel n f g :
  main_gate http fuel n n f = Some g → n ≤ 15 →
  gate_calls g = S (gate_retries g) ∧
  n ≤ gate_retries g ≤ 16 ∧
  (∀ k, n ≤ k < gate_retries g → http k = false) ∧
  (http (gate_retries g) = true ∨ OLLAMA_LATCH ∈ gate_fs g) ∧
  (gate_retries g ≤ 15 →
     gate_fs g = f ∧ Forall (λ x, is_write x = false) (gate_effects g)) ∧
  (gate_retries g = 16 →
     (OLLAMA_LATCH ∉ f) ∧ gate_fs g = {[OLLAMA_LATCH]} ∪ f ∧
     WriteFileSync OLLAMA_LATCH "LATCH_BYPASS" ∈ gate_effects g).
Proof.
  revert n f g.
  induction fuel as [|fuel IH]; intros n f g Hg Hn; [done|].
  destruct (checkOllamaReady_cases (http n) f) as [[e He]|[Hhttp Hlatch]].
  { erewrite main_gate_ready in Hg by done. injection Hg as <-.
    apply checkOllamaReady_true in He as [Hexit Hquiet].
    cbn [gate_fs gate_calls gate_retries gate_effects].
    split_and!; try done; try lia. }
  rewrite main_gate_not_ready in Hg by done. cbn zeta in Hg.
  case_decide as Hlast.
  - assert (n = 15) as -> by lia.
    destruct fuel as [|fuel]; [done|].
    destruct (checkOllamaReady_latch (http 16) ({[OLLAMA_LATCH]} ∪ f))
      as (e & He & Hquiet); [set_solver|].
    erewrite main_gate_ready in Hg by done. injection Hg as <-.
    cbn [gate_fs gate_calls gate_retries gate_effects].
    split_and!; try done; try lia.
    + intros k ?. by assert (k = 15) as -> by lia.
    + right. set_solver.
    + intros _. split_and!; [done..|find_elem].
  - destruct (main_gate http fuel (S n) (S n) f) as [r|] eqn:Hr; [|done].
    injection Hg as <-.
    destruct (IH _ _ _ Hr) as (Hc & Hb & Hfail & Hexit & Hsmall & Hbig); [lia|].
    cbn [gate_fs gate_calls gate_retries gate_effects].
    split_and!; try done; try lia.
    + intros k Hk. destruct (decide (k = n)) as [->|]; [done|].
      apply Hfail. lia.
    + intros Hle. destruct (Hsmall Hle) as [-> Hquiet]. split; [done|].
      repeat (apply Forall_app; split); try done.
      all: try by repeat constructor.
      case_decide; by repeat constructor.
    + intros H16. destruct (Hbig H16) as (? & ? & ?).
      split_and!; [done..|find_elem].
Qed.

(** [X1] Whatever the health check answers and whatever the file system
    holds, the readiness loop is left after at most 17 calls of the check
    and 16 sleeps; it only ever adds the latch file. *)
Theorem readiness_loop_bounded (http : nat → bool) (fuel : nat) (f : gset string) :
  17 ≤ fuel →
  ∃ g, main_gate http fuel 0 0 f = Some g ∧
       gate_calls g = S (gate_retries g) ∧
       gate_retries g ≤ 16 ∧
       (gate_fs g = f ∨ gate_fs g = {[OLLAMA_LATCH]} ∪ f).
Proof.
  intros Hfuel.
  destruct (main_gate_terminates http 17 0 0 f) as [g Hg]; [right; lia|].
  apply (main_gate_fuel_mono _ _ fuel) in Hg; [|done].
  exists g. split; [done|].
  destruct (main_gate_exit _ _ _ _ _ Hg) as (Hc & Hb & _ & _ & Hsmall & Hbig);
    [lia|].
  split_and!; [done|lia|].
  destruct (decide (gate_retries g ≤ 15)) as [Hle|Hgt].
  - left. by apply Hsmall.
  - right. apply Hbig. lia.
Qed.

(** [X2] When the readiness loop is left, either the HTTP health check
    succeeded on the last call or the latch file exists; every earlier
    call failed; and the loop forces the latch only once [retries] has
    passed 15: left with [retries] at most 15 it has written nothing. *)
Theorem readiness_loop_exit
    (http : nat → bool) (fuel : nat) (f : gset string) (g : gate_result) :
  main_gate http fuel 0 0 f = Some g →
  (http (gate_retries g) = true ∨ OLLAMA_LATCH ∈ gate_fs g) ∧
  (∀ k, k < gate_retries g → http k = false) ∧
  (gate_retries g ≤ 15 →
     gate_fs g = f ∧ Forall (λ x, is_write x = false) (gate_effects g)) ∧
  (15 < gate_retries g →
     gate_retries g = 16 ∧ (OLLAMA_LATCH ∉ f) ∧
     gate_fs g = {[OLLAMA_LATCH]} ∪ f ∧
     WriteFileSync OLLAMA_LATCH "LATCH_BYPASS" ∈ gate_effects g).
Proof.
  intros Hg.
  destruct (main_gate_exit _ _ _ _ _ Hg) as (_ & Hb & Hfail & Hexit & Hsmall & Hbig);
    [lia|].
  split_and!; try done.
  - intros k Hk. apply Hfail. lia.
  - intros Hgt. assert (gate_retries g = 16) as H16 by lia.
    split; [done|]. by apply Hbig.
Qed.

(** [X3] Without a latch file, if the health check fails on its first [k]
    calls and succeeds on the next, with [k] at most 15, the loop is left
    after exactly [k + 1] calls and [k] sleeps and has written nothing. *)
Theorem readiness_loop_first_success
    (http : nat → bool) (fuel k : nat) (f : gset string) :
  OLLAMA_LATCH ∉ f → k ≤ 15 → 17 ≤ fuel →
  (∀ j, j < k → http j = false) → http k = true →
  ∃ g, main_gate http fuel 0 0 f = Some g ∧
       gate_calls g = S k ∧ gate_retries g = k ∧ gate_fs g = f ∧
       Forall (λ x, is_write x = false) (gate_effects g).
Proof.
  intros Hlatch Hk Hfuel Hfail Hok.
  destruct (main_gate_terminates http 17 0 0 f) as [g Hg]; [right; lia|].
  apply (main_gate_fuel_mono _ _ fuel) in Hg; [|done].
  exists g. split; [done|].
  destruct (main_gate_exit _ _ _ _ _ Hg)
    as (Hc & Hb & Hfailed & Hexit & Hsmall & Hbig); [lia|].
  assert (gate_retries g = k) as Hr.
  { destruct (decide (gate_retries g ≤ k)) as [Hle|Hgt].
    - destruct (decide (gate_retries g = k)) as [|Hne]; [done|].
      assert (gate_retries g ≤ 15) as Hsm by lia.
      destruct (Hsmall Hsm) as [Hfs _]. rewrite Hfs in Hexit.
      destruct Hexit as [Hexit|?]; [|done].
      rewrite Hfail in Hexit by lia. done.
    - rewrite Hfailed in Hok by lia. done. }
  rewrite Hc, Hr. destruct Hsmall as [? ?]; [lia|]. by split_and!.
Qed.

(** ** Invariants of the reachable states *)

Lemma child_unique DEPENDENCIES P s pid1 pid2 a :
  NoDup (obj_keys DEPENDENCIES) → reachable_within DEPENDENCIES P s →
  children s !! pid1 = Some a → children s !! pid2 = Some a → pid1 = pid2.
Proof.
  intros Hnd Hreach H1 H2.
  pose proof (handles_owned_reachable _ _ _ Hreach) as [Hown _].
  rewrite <- (reachable_names _ _ _ Hreach) in Hnd.
  apply Hown in H1, H2.
  pose proof (loops_name_unique _ _ _ _ Hnd H1 H2). congruence.
Qed.

Lemma mirror_body DEPENDENCIES agentName s :
  handles_owned s → registry_mirrors_children s →
  registry_mirrors_children (spawnLoop_body DEPENDENCIES agentName s).1.2.
Proof.
  intros [_ Hlt] Hm.
  destruct (spawnLoop_body_case DEPENDENCIES agentName s); try done.
  intros a. simpl. rewrite elem_of_union, elem_of_singleton, (Hm a). split.
  - intros [->|[pid Hpid]].
    + exists (next_pid s). apply lookup_insert_eq.
    + exists pid. rewrite lookup_insert_ne; [done|].
      intros <-. apply Hlt in Hpid. lia.
  - intros [pid Hpid]. rewrite lookup_insert in Hpid.
    case_decide; [left; congruence|right; eauto].
Qed.

Lemma mirror_step DEPENDENCIES s l s' effs :
  NoDup (loops s).*1 → handles_owned s → registry_mirrors_children s →
  step DEPENDENCIES s l = Some (s', effs) →
  registry_mirrors_children s'.
Proof.
  intros Hnd Hown Hm Hstep. destruct l as [i|pid code|p|p]; simpl in Hstep.
  - destruct (loops s !! i) as [[b [ms|pid0|]]|] eqn:Hi; try done.
    pose proof (mirror_body DEPENDENCIES b s Hown Hm) as Hb.
    destruct (spawnLoop_body DEPENDENCIES b s) as [[q t] e].
    by injection Hstep as <- <-.
  - destruct (children s !! pid) as [b|] eqn:Hb; [|done].
    injection Hstep as <- <-. intros a. simpl.
    rewrite elem_of_difference, elem_of_singleton, (Hm a). split.
    + intros [[pid' Hpid'] Hne]. exists pid'.
      rewrite lookup_delete_ne; [done|]. intros <-. congruence.
    + intros [pid' [Hne Hpid']%lookup_delete_Some]. split; [eauto|].
      intros ->. destruct Hown as [Hown _].
      apply Hown in Hb, Hpid'.
      pose proof (loops_name_unique _ _ _ _ Hnd Hb Hpid'). congruence.
  - by injection Hstep as <- <-.
  - by injection Hstep as <- <-.
Qed.

Lemma mirror_reachable DEPENDENCIES P s :
  NoDup (obj_keys DEPENDENCIES) → reachable_within DEPENDENCIES P s →
  registry_mirrors_children s.
Proof.
  intros Hnd.
  induction 1 as [http fuel f s effs Hboot _|s l s' effs Hreach IH Hstep _].
  - cut (handles_owned s ∧ registry_mirrors_children s); [by intros [_ ?]|].
    eapply (boot_invariant DEPENDENCIES
              (λ t, handles_owned t ∧ registry_mirrors_children t));
      [| | |done].
    + intros f0. split; [split; intros pid a; simpl; by rewrite lookup_empty|].
      intros a. simpl. split; [set_solver|].
      intros [pid Hpid]. by rewrite lookup_empty in Hpid.
    + intros agent t _ [Hown Hm]. split; [by apply handles_owned_startAgent|].
      pose proof (mirror_body DEPENDENCIES agent t Hown Hm) as Hb.
      unfold startAgent.
      by destruct (spawnLoop_body DEPENDENCIES agent t) as [[q u] e].
    + by intros t f' [[? ?] ?].
  - eapply mirror_step; [| |done..].
    + by rewrite (reachable_names _ _ _ Hreach).
    + by eapply handles_owned_reachable.
Qed.

(** [X4] With the keys of the table distinct, in every reachable state the
    registry holds exactly the agents that have a live child process, and
    each of them is awaited by its loop. *)
Theorem registry_is_live_children (DEPENDENCIES : jsobject) (s : state) (a : string) :
  NoDup (obj_keys DEPENDENCIES) → reachable DEPENDENCIES s →
  (a ∈ snapshot s ↔ ∃ pid, children s !! pid = Some a) ∧
  (a ∈ snapshot s ↔ ∃ i pid, loops s !! i = Some (a, AwaitExit pid)
                              ∧ children s !! pid = Some a).
Proof.
  intros Hnd Hreach.
  pose proof (mirror_reachable _ _ _ Hnd Hreach a) as Hm.
  pose proof (handles_owned_reachable _ _ _ Hreach) as [Hown _].
  split; [done|]. unfold snapshot. rewrite Hm. split.
  - intros [pid Hpid]. pose proof (Hown _ _ Hpid) as [i Hi]%list_elem_of_lookup.
    eauto.
  - intros (i & pid & _ & Hpid). eauto.
Qed.

(** ** Only agents of the table run, and no loop throws *)

Lemma spawnLoop_body_not_rejected DEPENDENCIES agentName s :
  agentName ∈ obj_keys DEPENDENCIES →
  (spawnLoop_body DEPENDENCIES agentName s).1.1 ≠ Rejected
  ∧ ThrowTypeError ∉ (spawnLoop_body DEPENDENCIES agentName s).2.
Proof.
  intros [deps Hget]%obj_get_is_Some.
  destruct (spawnLoop_body_case DEPENDENCIES agentName s); simpl;
    [congruence|split; [done|intros Hin; in_literal Hin]..].
Qed.

Lemma registry_within_body DEPENDENCIES agentName s :
  agentName ∈ obj_keys DEPENDENCIES → registry_within DEPENDENCIES s →
  registry_within DEPENDENCIES (spawnLoop_body DEPENDENCIES agentName s).1.2.
Proof.
  intros Hkey Hin a [?|[-> _]]%spawnLoop_body_started; [by apply Hin|done].
Qed.

Lemma loop_names_are_keys DEPENDENCIES P s i a p :
  reachable_within DEPENDENCIES P s → loops s !! i = Some (a, p) →
  a ∈ obj_keys DEPENDENCIES.
Proof.
  intros Hreach Hi. rewrite <- (reachable_names _ _ _ Hreach).
  apply list_elem_of_lookup. exists i. by rewrite list_lookup_fmap, Hi.
Qed.

Lemma registry_within_reachable DEPENDENCIES P s :
  reachable_within DEPENDENCIES P s → registry_within DEPENDENCIES s.
Proof.
  induction 1 as [http fuel f s effs Hboot _|s l s' effs Hreach IH Hstep _].
  - eapply (boot_invariant DEPENDENCIES (registry_within DEPENDENCIES));
      [| | |done].
    + intros f0 a. simpl. set_solver.
    + intros agent t Hkey Ht.
      pose proof (registry_within_body DEPENDENCIES agent t Hkey Ht) as Hb.
      unfold startAgent.
      by destruct (spawnLoop_body DEPENDENCIES agent t) as [[q u] e].
    + done.
  - intros a Ha.
    destruct (step_started_added _ _ _ _ _ _ Hstep Ha) as [?|[_ Hl]];
      [by apply IH|].
    destruct l as [i|pid code|p|p]; simpl in Hl; try done.
    + destruct (loops s !! i) as [[b q]|] eqn:Hi; [|done].
      injection Hl as ->. by eapply loop_names_are_keys.
    + pose proof (handles_owned_reachable _ _ _ Hreach) as [Hown _].
      apply Hown, list_elem_of_lookup in Hl as [i Hi].
      by eapply loop_names_are_keys.
Qed.

Lemma no_loop_rejected_reachable DEPENDENCIES P s :
  reachable_within DEPENDENCIES P s → no_loop_rejected s.
Proof.
  induction 1 as [http fuel f s effs Hboot _|s l s' effs Hreach IH Hstep _].
  - eapply (boot_invariant DEPENDENCIES no_loop_rejected); [| | |done].
    + by intros f0 a p ?%elem_of_nil.
    + intros agent t Hkey Ht a p.
      rewrite startAgent_loops.
      intros [?|[= -> ->]%list_elem_of_singleton]%elem_of_app; [by eapply Ht|].
      by apply spawnLoop_body_not_rejected.
    + done.
  - intros a p Hin. destruct l as [i|pid code|p0|p0]; simpl in Hstep.
    + destruct (loops s !! i) as [[b [ms|pid1|]]|] eqn:Hi; try done.
      pose proof (loop_names_are_keys _ _ _ _ _ _ Hreach Hi) as Hkey.
      pose proof (spawnLoop_body_loops DEPENDENCIES b s) as Hl.
      pose proof (spawnLoop_body_not_rejected DEPENDENCIES b s Hkey) as [Hq _].
      destruct (spawnLoop_body DEPENDENCIES b s) as [[q t] e].
      injection Hstep as <- <-. simpl in *. rewrite Hl in Hin.
      apply list_elem_of_lookup in Hin as [j Hj].
      destruct (decide (i = j)) as [<-|Hne].
      * rewrite list_lookup_insert_eq in Hj by (by eapply lookup_lt_Some).
        by injection Hj as <- <-.
      * rewrite list_lookup_insert_ne in Hj by done.
        by eapply IH, list_elem_of_lookup_2.
    + destruct (children s !! pid); [|done].
      injection Hstep as <- <-. simpl in Hin.
      apply list_elem_of_fmap in Hin as ([b q] & Heq & Hin).
      unfold on_exit in Heq. simpl in Heq.
      case_decide; injection Heq as -> ->; [done|by eapply IH].
    + injection Hstep as <- <-. by eapply IH.
    + injection Hstep as <- <-. by eapply IH.
Qed.

(** [X5] [main] starts loops for the keys of [DEPENDENCIES] only, so in
    every reachable state: each loop belongs to a key and has not thrown,
    the registry and the child handles name keys only, and no step ever
    takes the [deps.every] of an [undefined] dependency list. *)
Theorem only_keys_run
    (DEPENDENCIES : jsobject) (s : state) :
  reachable DEPENDENCIES s →
  (loops s).*1 = obj_keys DEPENDENCIES ∧
  (∀ i a p, loops s !! i = Some (a, p) → p ≠ Rejected) ∧
  (∀ a, a ∈ snapshot s → a ∈ obj_keys DEPENDENCIES) ∧
  (∀ pid a, children s !! pid = Some a → a ∈ obj_keys DEPENDENCIES) ∧
  (∀ l s' effs, step DEPENDENCIES s l = Some (s', effs) →
                ThrowTypeError ∉ effs).
Proof.
  intros Hreach. split_and!.
  - by eapply reachable_names.
  - intros i a p Hi.
    by eapply (no_loop_rejected_reachable _ _ _ Hreach), list_elem_of_lookup_2.
  - by eapply registry_within_reachable.
  - intros pid a Hpid.
    pose proof (handles_owned_reachable _ _ _ Hreach) as [Hown _].
    apply Hown, list_elem_of_lookup in Hpid as [i Hi].
    by eapply loop_names_are_keys.
  - intros l s' effs Hstep Hin. destruct l as [i|pid code|p|p]; simpl in Hstep.
    + destruct (loops s !! i) as [[b [ms|pid1|]]|] eqn:Hi; try done.
      pose proof (loop_names_are_keys _ _ _ _ _ _ Hreach Hi) as Hkey.
      pose proof (spawnLoop_body_not_rejected DEPENDENCIES b s Hkey) as [_ Hq].
      destruct (spawnLoop_body DEPENDENCIES b s) as [[q t] e].
      by injection Hstep as <- <-.
    + destruct (children s !! pid); [|done].
      injection Hstep as <- <-. in_literal Hin.
    + injection Hstep as <- <-. in_literal Hin.
    + injection Hstep as <- <-. in_literal Hin.
Qed.

(** ** A dependency that is not an agent *)

Lemma undeclared_dependency_body DEPENDENCIES a deps dep s :
  obj_get DEPENDENCIES a = Some deps → dep ∈ deps →
  dep ∉ obj_keys DEPENDENCIES → registry_within DEPENDENCIES s →
  spawnLoop_body DEPENDENCIES a s = (AwaitSleep 1000, s, [Sleep 1000%N]).
Proof.
  intros Hget Hin Hnokey Hreg. unfold spawnLoop_body. rewrite Hget.
  rewrite (all_deps_started_missing deps _ dep); [done..|].
  intros ?%Hreg. done.
Qed.

(** [X6] An agent that declares a dependency which is not a key of the
    table (a misspelt name, say) is never launched: in every reachable
    state it is absent from the registry, has no child, and a pass of its
    loop is the silent one-second wait. *)
Theorem undeclared_dependency_blocks
    (DEPENDENCIES : jsobject) (a dep : string) (deps : list string) (s : state) :
  obj_get DEPENDENCIES a = Some deps → dep ∈ deps →
  dep ∉ obj_keys DEPENDENCIES →
  reachable DEPENDENCIES s →
  idle a s ∧
  spawnLoop_body DEPENDENCIES a s = (AwaitSleep 1000, s, [Sleep 1000%N]).
Proof.
  intros Hget Hin Hnokey Hreach.
  split; [|by eapply undeclared_dependency_body, registry_within_reachable].
  induction Hreach as [http fuel f s effs Hboot _|s l s' effs Hreach IH Hstep _].
  - cut (registry_within DEPENDENCIES s ∧ idle a s); [by intros [_ ?]|].
    eapply (boot_invariant DEPENDENCIES
              (λ t, registry_within DEPENDENCIES t ∧ idle a t)); [| | |done].
    + intros f0. split; [intros x; simpl; set_solver|].
      split; simpl; [set_solver|]. intros pid. by rewrite lookup_empty.
    + intros agent t Hkey [Hreg Hidle].
      pose proof (registry_within_body DEPENDENCIES agent t Hkey Hreg) as Hb.
      pose proof (spawnLoop_body_idle DEPENDENCIES agent t a Hidle) as Hi.
      pose proof (undeclared_dependency_body _ _ _ _ t Hget Hin Hnokey Hreg)
        as Hwait.
      unfold startAgent.
      destruct (decide (a = agent)) as [<-|Hne].
      * by rewrite Hwait.
      * destruct (spawnLoop_body DEPENDENCIES agent t) as [[q u] e].
        split; [done|]. destruct Hi as [? ?]; by auto.
    + by intros t f' [? [? ?]].
  - eapply idle_step; [done..|]. intros script pid Hspawn.
    pose proof (registry_within_reachable _ _ _ Hreach) as Hreg.
    pose proof (undeclared_dependency_body _ _ _ _ s Hget Hin Hnokey Hreg)
      as Hwait.
    destruct l as [i|pid0 code|p|p]; simpl in Hstep.
    + destruct (loops s !! i) as [[b [ms|pid1|]]|] eqn:Hi; try done.
      pose proof (spawnLoop_body_case DEPENDENCIES b s) as Hcase.
      destruct (spawnLoop_body DEPENDENCIES b s) as [[q t] e] eqn:Hbody.
      injection Hstep as <- <-.
      inversion Hcase; subst; in_literal Hspawn.
      injection Hspawn as -> -> ->. by rewrite Hwait in Hbody.
    + destruct (children s !! pid0); [|done].
      injection Hstep as <- <-. in_literal Hspawn.
    + injection Hstep as <- <-. in_literal Hspawn.
    + injection Hstep as <- <-. in_literal Hspawn.
Qed.

(** ** Children are only ever lost to their own exit *)

(** [X7] With the keys of the table distinct, a live child handle survives
    every step except its own 'exit' event: no pass of any loop and no
    exit of another child (a dependency, say) removes it, takes its agent
    out of the registry, or resumes the loop that awaits it. *)
Theorem child_survives_other_steps
    (DEPENDENCIES : jsobject) (s s' : state) (l : label) (effs : list effect)
    (pid : nat) (b : string) :
  NoDup (obj_keys DEPENDENCIES) → reachable DEPENDENCIES s →
  step DEPENDENCIES s l = Some (s', effs) →
  children s !! pid = Some b →
  (∀ code, l ≠ ProcExit pid code) →
  children s' !! pid = Some b ∧ b ∈ snapshot s' ∧
  ∃ i, loops s' !! i = Some (b, AwaitExit pid).
Proof.
  intros Hnd Hreach Hstep Hpid Hother.
  assert (reachable DEPENDENCIES s') as Hreach'
    by (by eapply reach_step).
  assert (children s' !! pid = Some b) as Hpid'.
  { pose proof (handles_owned_reachable _ _ _ Hreach) as [_ Hlt].
    destruct l as [i|pid0 code|p|p]; simpl in Hstep.
    - destruct (loops s !! i) as [[a [ms|pid1|]]|] eqn:Hi; try done.
      pose proof (spawnLoop_body_case DEPENDENCIES a s) as Hcase.
      destruct (spawnLoop_body DEPENDENCIES a s) as [[q t] e].
      injection Hstep as <- <-.
      inversion Hcase; subst; simpl; try done.
      rewrite lookup_insert_ne; [done|]. intros <-. apply Hlt in Hpid. lia.
    - destruct (children s !! pid0) as [a|]; [|done].
      injection Hstep as <- <-. simpl.
      rewrite lookup_delete_ne; [done|]. intros ->. by eapply Hother.
    - by injection Hstep as <- <-.
    - by injection Hstep as <- <-. }
  split; [done|].
  split; [apply (mirror_reachable _ _ _ Hnd Hreach'); eauto|].
  pose proof (handles_owned_reachable _ _ _ Hreach') as [Hown _].
  by apply Hown, list_elem_of_lookup in Hpid'.
Qed.

(** ** Restart *)

(** [X8] A child exits, with any code, and the two-second timer of its loop
    fires: if the script is still there and every declared dependency is
    live, the agent is launched again at once, under a new handle, and is
    back in the registry. *)
Theorem exit_then_restart
    (DEPENDENCIES : jsobject) (s : state) (pid : nat) (code : option N)
    (a : string) (deps : list string) :
  reachable DEPENDENCIES s →
  children s !! pid = Some a →
  obj_get DEPENDENCIES a = Some deps →
  all_deps_started deps (startedAgents s ∖ {[a]}) = true →
  script_of a ∈ fs s →
  ∃ i s2,
    loops s !! i = Some (a, AwaitExit pid) ∧
    run DEPENDENCIES s [ProcExit pid code; TimerFires i]
    = Some (s2,
            [ConsoleLog (msg_exited a code); SetDelete a; Sleep 2000%N;
             ExistsSync (script_of a) true; ConsoleLog (msg_starting a);
             Spawn (next_pid s) (script_of a) a;
             CreateWriteStream (logFile_of a); SetAdd a]) ∧
    children s2 !! pid = None ∧
    children s2 !! next_pid s = Some a ∧
    a ∈ snapshot s2 ∧
    loops s2 !! i = Some (a, AwaitExit (next_pid s)).
Proof.
  intros Hreach Hpid Hget Hall Hscript.
  pose proof (handles_owned_reachable _ _ _ Hreach) as [Hown Hlt].
  pose proof (Hown _ _ Hpid) as [i Hi]%list_elem_of_lookup.
  pose proof (Hlt _ _ Hpid) as Hfresh.
  assert ((on_exit pid <$> loops s) !! i = Some (a, AwaitSleep 2000)) as Hi'.
  { rewrite list_lookup_fmap, Hi. simpl. unfold on_exit. simpl.
    by rewrite decide_True. }
  exists i. eexists. split; [done|]. split.
  - simpl. rewrite Hpid. simpl. rewrite Hi'. unfold spawnLoop_body.
    rewrite Hget. simpl. rewrite Hall. simpl.
    rewrite bool_decide_eq_true_2 by done. simpl. reflexivity.
  - simpl. split_and!.
    + rewrite lookup_insert_ne by lia. apply lookup_delete_eq.
    + apply lookup_insert_eq.
    + unfold snapshot. simpl. set_solver.
    + apply list_lookup_insert_eq. rewrite length_fmap.
      by eapply lookup_lt_Some.
Qed.

(** ** Key order decides who is launched during boot *)











(** ** Module initialisation *)

Lemma ensure_dir_present f effs dir :
  dir ∈ f → ensure_dir (f, effs) dir = (f, effs ++ [ExistsSync dir true]).
Proof. intros Hin. unfold ensure_dir. by rewrite bool_decide_eq_true_2. Qed.

Lemma ensure_dir_fs f effs dir :
  dir ∈ (list_to_set (ancestors_from "" dir) : gset string) →
  f ⊆ (ensure_dir (f, effs) dir).1 ∧ dir ∈ (ensure_dir (f, effs) dir).1.
Proof.
  intros Hself. unfold ensure_dir, mkdirSync_recursive.
  case_bool_decide; simpl; set_solver.
Qed.

(** [X11] After module evaluation the logs and sockets directories exist
    and nothing that existed is gone; evaluating the module again finds
    both directories and creates nothing. *)
Theorem module_init_idempotent (f : gset string) :
  f ⊆ (module_init f).1 ∧
  LOGS_DIR ∈ (module_init f).1 ∧ SOCKETS_DIR ∈ (module_init f).1 ∧
  module_init (module_init f).1
  = ((module_init f).1, [ExistsSync LOGS_DIR true; ExistsSync SOCKETS_DIR true]).
Proof.
  unfold module_init. cbn [foldl].
  destruct (ensure_dir (f, []) LOGS_DIR) as [f1 e1] eqn:H1.
  destruct (ensure_dir (f1, e1) SOCKETS_DIR) as [f2 e2] eqn:H2.
  destruct (ensure_dir_fs f [] LOGS_DIR) as [Hsub1 Hlogs]; [by_evaluation|].
  destruct (ensure_dir_fs f1 e1 SOCKETS_DIR) as [Hsub2 Hsock]; [by_evaluation|].
  rewrite H1 in Hsub1, Hlogs. rewrite H2 in Hsub2, Hsock. simpl in *.
  split_and!; [set_solver..|]. cbn [fst].
  rewrite bool_decide_eq_true_2 by set_solver.
  by rewrite ensure_dir_present.
Qed.

(** * The launcher scripts *)

(** ** [start-pm2.sh] *)

Lemma wait_loop_spec HOME arrivals fuel retry f :
  retry ≤ 15 → 16 ≤ fuel + retry →
  ∃ r, StartPm2.wait_loop HOME arrivals fuel retry f = Some r ∧
       retry ≤ StartPm2.wait_retry r ≤ 15 ∧
       f ⊆ StartPm2.wait_fs r ∧
       (StartPm2.OLLAMA_LATCH HOME ∈ StartPm2.wait_fs r
        ∨ StartPm2.wait_retry r = 15) ∧
       (StartPm2.OLLAMA_LATCH HOME ∈ f → r = StartPm2.WaitResult f retry []) ∧
       (∀ c p, EchoInto c p ∉ StartPm2.wait_effects r).
Proof.
  revert retry f. induction fuel as [|fuel IH]; intros retry f Hretry Hfuel;
    [lia|].
  cbn [StartPm2.wait_loop]. unfold StartPm2.MAX_RETRIES.
  case_bool_decide as Hlatch; simpl.
  - case_bool_decide as Hlt; simpl.
    + destruct (IH (S retry) (arrivals retry ∪ f))
        as (r & -> & Hb & Hsub & Hend & _ & Hquiet); [lia..|].
      eexists. split; [done|]. simpl.
      split_and!; [lia..|set_solver|done|done|].
      intros c p Hin. apply elem_of_cons in Hin as [?|Hin]; [done|].
      apply elem_of_cons in Hin as [?|Hin]; [done|]. by eapply Hquiet.
    + eexists. split; [done|]. simpl.
      split_and!; [lia..|done|right; lia|done|].
      by intros c p ?%elem_of_nil.
  - eexists. split; [done|]. simpl.
    split_and!; [lia..|done|by left|done|].
    by intros c p ?%elem_of_nil.
Qed.

(** [X12] Whatever shows up while it sleeps, [start-pm2.sh] reaches the
    PM2 start after at most 15 two-second waits, and by then the latch
    file exists: it was there, it showed up, or the script wrote it, which
    it does only after the full 15 waits.  With the latch there from the
    start it does not wait at all. *)
Theorem start_pm2_leaves_latch
    (HOME : option string) (arrivals : nat → gset string)
    (fuel : nat) (f : gset string) :
  16 ≤ fuel →
  ∃ f' n effs,
    StartPm2.script HOME arrivals fuel f = Some (f', n, effs) ∧
    StartPm2.OLLAMA_LATCH HOME ∈ f' ∧ f ⊆ f' ∧
    n ≤ StartPm2.MAX_RETRIES ∧
    (EchoInto "LATCH_FORCED" (StartPm2.OLLAMA_LATCH HOME) ∈ effs → n = 15) ∧
    (StartPm2.OLLAMA_LATCH HOME ∈ f →
       n = 0 ∧ EchoInto "LATCH_FORCED" (StartPm2.OLLAMA_LATCH HOME) ∉ effs).
Proof.
  intros Hfuel. unfold StartPm2.script.
  set (f1 := mkdirSync_recursive _ (mkdirSync_recursive _ f)).
  assert (f ⊆ f1) as Hsub1 by (unfold f1, mkdirSync_recursive; set_solver).
  destruct (wait_loop_spec HOME arrivals fuel 0 f1)
    as (r & -> & Hb & Hsub & Hend & Hthere & Hquiet); [lia..|].
  destruct (bool_decide (StartPm2.OLLAMA_LATCH HOME ∉ StartPm2.wait_fs r))
    eqn:Hforce.
  - apply bool_decide_eq_true in Hforce.
    eexists _, _, _. split; [done|].
    unfold StartPm2.MAX_RETRIES. split_and!; [set_solver|set_solver|lia| |].
    + intros _. destruct Hend; [done|lia].
    + intros Hin. rewrite Hthere in Hforce by set_solver. simpl in Hforce.
      destruct Hforce. set_solver.
  - apply bool_decide_eq_false in Hforce. apply dec_stable in Hforce.
    assert (EchoInto "LATCH_FORCED" (StartPm2.OLLAMA_LATCH HOME)
              ∉ [Echo "[start-pm2.sh] NEXUS cockpit starting...";
                 MkdirP [StartPm2.SOCKETS_DIR HOME; StartPm2.LOGS_DIR HOME]]
                  ++ StartPm2.wait_effects r ++ []
                  ++ [Echo "[start-pm2.sh] Proceeding with PM2 startup.";
                      if bool_decide (StartPm2.ECOSYSTEM HOME ∈ StartPm2.wait_fs r)
                      then Pm2Start (StartPm2.ECOSYSTEM HOME) None
                      else Pm2Start (StartPm2.AI_SCRIPT HOME)
                             (Some StartPm2.PM2_NAME);
                      Pm2Save;
                      Echo "[start-pm2.sh] Orchestrator started. Tailing logs...";
                      Pm2Logs StartPm2.PM2_NAME]) as Hnone.
    { rewrite !elem_of_app, !elem_of_cons, elem_of_nil.
      intros [[?|[?|?]]|[Hin|[?|[?|[Hin|[?|[?|[?|?]]]]]]]]; try done.
      - by eapply Hquiet.
      - by case_bool_decide. }
    eexists _, _, _. split; [done|].
    unfold StartPm2.MAX_RETRIES. split_and!; [done|set_solver|lia|done|].
    intros Hin. rewrite Hthere in Hnone |- * by set_solver. done.
Qed.






(** ** The Ollama start-up script *)

Lemma poll_first_success curl fuel k0 k :
  (∀ j, k0 ≤ j < k → curl j = false) → curl k = true → k0 ≤ k →
  k - k0 < fuel →
  ∃ e, OllamaStartup.poll curl fuel k0 = Some (k, e) ∧
       (∀ p, Touch p ∉ e).
Proof.
  revert k0. induction fuel as [|fuel IH]; intros k0 Hfail Hok Hle Hfuel;
    [lia|].
  simpl. destruct (decide (k0 = k)) as [->|Hne].
  - rewrite Hok. eexists. split; [done|]. intros p Hin. in_literal Hin.
  - rewrite Hfail by lia.
    destruct (IH (S k0)) as (e & -> & Hquiet); [intros j ?; apply Hfail; lia|done|lia..|].
    eexists. split; [done|]. intros p Hin.
    apply elem_of_cons in Hin as [?|Hin]; [done|].
    apply elem_of_cons in Hin as [?|Hin]; [done|]. by eapply Hquiet.
Qed.

Lemma poll_never curl fuel k0 :
  (∀ j, curl j = false) → OllamaStartup.poll curl fuel k0 = None.
Proof.
  intros Hfail. revert k0. induction fuel as [|fuel IH]; intros k0; simpl;
    [done|].
  by rewrite Hfail, IH.
Qed.

(** [X14] The Ollama start-up script creates the latch file exactly when
    the Ollama API answers: if [curl] first succeeds on request [k + 1], the
    script has slept [k] seconds and then touches the latch, removing
    nothing; if [curl] never succeeds the script never gets past its loop,
    however long it runs.  With [HOME] set to [/home/loop] that latch is the
    one the supervisor reads. *)
Theorem ollama_startup_sets_latch
    (HOME : string) (curl : nat → bool) (f : gset string) :
  (∀ k fuel,
      (∀ j, j < k → curl j = false) → curl k = true → k < fuel →
      ∃ f' e, OllamaStartup.script HOME curl fuel f = Some (f', k, e) ∧
              OllamaStartup.LATCH_FILE HOME ∈ f' ∧ f ⊆ f' ∧
              Touch (OllamaStartup.LATCH_FILE HOME) ∈ e) ∧
  ((∀ j, curl j = false) →
      ∀ fuel, OllamaStartup.script HOME curl fuel f = None) ∧
  OllamaStartup.LATCH_FILE "/home/loop" = OLLAMA_LATCH.
Proof.
  split_and!; [| |done].
  - intros k fuel Hfail Hok Hfuel. unfold OllamaStartup.script.
    destruct (poll_first_success curl fuel 0 k) as (e & -> & _);
      [intros j ?; apply Hfail; lia|done|lia..|].
    eexists _, _. split; [done|].
    unfold mkdirSync_recursive. split_and!; [set_solver..|find_elem].
  - intros Hfail fuel. unfold OllamaStartup.script. by rewrite poll_never.
Qed.

(** * The Cube rule evaluator *)

Example cube_scenarios :
  NexusLogic.evaluateCubeLogic NexusLogic.scenario1
  = NexusLogic.Verdict false "FAILURE: CORE is true." None ∧
  NexusLogic.evaluateCubeLogic NexusLogic.scenario2
  = NexusLogic.Verdict true "EXECUTION COMPLETE" (Some "NEXUS") ∧
  NexusLogic.evaluateCubeLogic NexusLogic.scenario3
  = NexusLogic.Verdict true "SUCCESS: LOOP is false, CODE ignored." None.
Proof. done. Qed.

(** [X15] The evaluation succeeds in exactly two kinds of state, both with
    CORE false: LOOP false and WAVE true, whatever COIN and CODE are; or
    LOOP true, WAVE false, COIN not an even integer and CODE not starting
    with a space.  In particular it never succeeds with LOOP and WAVE both
    true, and the WAVE rule (even COIN, CODE followed by a space) never
    decides the outcome. *)
Theorem cube_success_cases (st : NexusLogic.cube_state) :
  NexusLogic.success (NexusLogic.evaluateCubeLogic st) = true
  ↔ NexusLogic.CORE st = false ∧
    ((NexusLogic.LOOP st = false ∧ NexusLogic.WAVE st = true) ∨
     (NexusLogic.LOOP st = true ∧ NexusLogic.WAVE st = false ∧
      NexusLogic.mod2_is_zero (NexusLogic.COIN st) = false ∧
      NexusLogic.startsWith_space (NexusLogic.CODE st) = false)).
Proof.
  destruct st as [core loop wave coin code]. simpl.
  destruct core, loop, wave; simpl;
    destruct (NexusLogic.mod2_is_zero coin); simpl;
    try destruct (NexusLogic.endsWith_space code); simpl;
    try destruct (NexusLogic.startsWith_space code); simpl;
    naive_solver.
Qed.

(** [X16] CODE is printed exactly when CORE and WAVE are false, LOOP is
    true, COIN is not an even integer and lies outside 1..10, and CODE does
    not start with a space; what is printed is CODE itself, the run is a
    success, and for an integer COIN this means: odd, and below 1 or above
    10. *)
Theorem cube_output_cases (st : NexusLogic.cube_state) (printed : string) :
  (NexusLogic.output (NexusLogic.evaluateCubeLogic st) = Some printed
   ↔ printed = NexusLogic.CODE st ∧
     NexusLogic.CORE st = false ∧ NexusLogic.LOOP st = true ∧
     NexusLogic.WAVE st = false ∧
     NexusLogic.mod2_is_zero (NexusLogic.COIN st) = false ∧
     NexusLogic.ge_one (NexusLogic.COIN st)
       && NexusLogic.le_ten (NexusLogic.COIN st) = false ∧
     NexusLogic.startsWith_space (NexusLogic.CODE st) = false) ∧
  (NexusLogic.output (NexusLogic.evaluateCubeLogic st) = Some printed →
   NexusLogic.evaluateCubeLogic st
   = NexusLogic.Verdict true "EXECUTION COMPLETE" (Some (NexusLogic.CODE st))) ∧
  (∀ n : Z,
     NexusLogic.COIN st = NexusLogic.Finite n 1 →
     NexusLogic.mod2_is_zero (NexusLogic.COIN st) = Z.even n ∧
     (NexusLogic.ge_one (NexusLogic.COIN st)
        && NexusLogic.le_ten (NexusLogic.COIN st) = false
      ↔ (n < 1 ∨ 10 < n)%Z)).
Proof.
  destruct st as [core loop wave coin code]. simpl. split_and!.
  - destruct core, loop, wave; simpl;
      destruct (NexusLogic.mod2_is_zero coin); simpl;
      try destruct (NexusLogic.endsWith_space code); simpl;
      try destruct (NexusLogic.startsWith_space code); simpl;
      try destruct (NexusLogic.ge_one coin && NexusLogic.le_ten coin); simpl;
      naive_solver.
  - destruct core, loop, wave; simpl;
      destruct (NexusLogic.mod2_is_zero coin); simpl;
      try destruct (NexusLogic.endsWith_space code); simpl;
      try destruct (NexusLogic.startsWith_space code); simpl;
      try destruct (NexusLogic.ge_one coin && NexusLogic.le_ten coin); simpl;
      naive_solver.
  - intros n ->. simpl. split.
    + change (2 * 1)%Z with 2%Z.
      destruct (Z.eqb_spec (n mod 2) 0) as [H0|H1].
      * symmetry. apply Z.even_spec. apply Z.mod_divide in H0; [|lia].
        destruct H0 as [k ->]. exists k. lia.
      * symmetry. apply not_true_is_false. intros [k ->]%Z.even_spec.
        apply H1. rewrite Z.mul_comm. by apply Z.mod_mul.
    + rewrite andb_false_iff, !Z.leb_gt. lia.
Qed.

(** * The further properties at sample inputs *)

Lemma nexus_keys_distinct : NoDup (obj_keys Nexus.DEPENDENCIES).
Proof. by_evaluation. Qed.

Lemma booted_reachable : reachable Nexus.DEPENDENCIES booted.
Proof.
  apply (reach_boot _ _ always_ready 1 all_scripts _
           (boot_effects Nexus.DEPENDENCIES always_ready 1 all_scripts));
    [by vm_compute|done].
Qed.

Lemma after_core_exit_reachable : reachable Nexus.DEPENDENCIES after_core_exit.
Proof.
  apply (reach_step _ _ booted core_exit _
           (run_effects Nexus.DEPENDENCIES booted [core_exit]));
    [apply booted_reachable|by vm_compute|done].
Qed.

Lemma booted_bare_reachable : reachable Nexus.DEPENDENCIES booted_bare.
Proof.
  apply (reach_boot _ _ always_ready 1 ∅ _
           (boot_effects Nexus.DEPENDENCIES always_ready 1 ∅));
    [by vm_compute|done].
Qed.

(** [X1] with a health check that is up from the third call on. *)
Lemma readiness_loop_bounded_witness :
  17 ≤ 17 ∧
  ∃ g, main_gate ready_on_third_call 17 0 0 ∅ = Some g ∧
       gate_calls g = S (gate_retries g) ∧ gate_retries g ≤ 16.
Proof.
  assert (17 ≤ 17) as Hfuel by lia. split; [exact Hfuel|].
  destruct (readiness_loop_bounded ready_on_third_call 17 ∅ Hfuel)
    as (g & Hg & Hc & Hr & _).
  exists g. repeat split; assumption.
Defined.

(** [X2] with a health check that is never up: left through the latch,
    which the loop wrote. *)
Lemma readiness_loop_exit_witness :
  main_gate never_ready 17 0 0 ∅ = Some (gate_outcome never_ready 17 ∅) ∧
  (never_ready (gate_retries (gate_outcome never_ready 17 ∅)) = true
   ∨ OLLAMA_LATCH ∈ gate_fs (gate_outcome never_ready 17 ∅)) ∧
  gate_retries (gate_outcome never_ready 17 ∅) = 16.
Proof.
  assert (main_gate never_ready 17 0 0 ∅ = Some (gate_outcome never_ready 17 ∅))
    as Hg by (vm_compute; reflexivity).
  destruct (readiness_loop_exit _ _ _ _ Hg) as (Hexit & _ & _ & Hbig).
  split; [exact Hg|]. split; [exact Hexit|].
  apply Hbig. vm_compute. lia.
Defined.

(** [X3] with a health check that is up from its sixth call on. *)
Lemma readiness_loop_first_success_witness :
  (OLLAMA_LATCH ∉ (∅ : gset string)) ∧ 5 ≤ 15 ∧ 17 ≤ 17 ∧
  (∀ j, j < 5 → ready_from 5 j = false) ∧ ready_from 5 5 = true ∧
  ∃ g, main_gate (ready_from 5) 17 0 0 ∅ = Some g ∧
       gate_calls g = 6 ∧ gate_retries g = 5 ∧ gate_fs g = ∅.
Proof.
  assert (OLLAMA_LATCH ∉ (∅ : gset string)) as Hlatch by by_evaluation.
  assert (5 ≤ 15) as Hk by lia.
  assert (17 ≤ 17) as Hfuel by lia.
  assert (∀ j, j < 5 → ready_from 5 j = false) as Hfail.
  { intros j Hj. unfold ready_from. apply bool_decide_eq_false. lia. }
  assert (ready_from 5 5 = true) as Hok by reflexivity.
  destruct (readiness_loop_first_success (ready_from 5) 17 5 ∅
              Hlatch Hk Hfuel Hfail Hok) as (g & Hg & Hc & Hr & Hfs & _).
  split_and!; try assumption. exists g. repeat split; assumption.
Defined.

(** [X4] after CORE has exited and before it is relaunched: CORE is out
    of the registry and has no child. *)
Lemma registry_is_live_children_witness :
  NoDup (obj_keys Nexus.DEPENDENCIES) ∧
  reachable Nexus.DEPENDENCIES after_core_exit ∧
  ("WAVE" ∈ snapshot after_core_exit
     ↔ ∃ pid, children after_core_exit !! pid = Some "WAVE") ∧
  ("CORE" ∈ snapshot after_core_exit
     ↔ ∃ pid, children after_core_exit !! pid = Some "CORE").
Proof.
  split; [exact nexus_keys_distinct|].
  split; [exact after_core_exit_reachable|]. split.
  - exact (proj1 (registry_is_live_children Nexus.DEPENDENCIES after_core_exit
                    "WAVE" nexus_keys_distinct after_core_exit_reachable)).
  - exact (proj1 (registry_is_live_children Nexus.DEPENDENCIES after_core_exit
                    "CORE" nexus_keys_distinct after_core_exit_reachable)).
Defined.

(** [X5] at the program's table booted without scripts. *)
Lemma only_keys_run_witness :
  reachable Nexus.DEPENDENCIES booted_bare ∧
  (loops booted_bare).*1 = obj_keys Nexus.DEPENDENCIES ∧
  (∀ i a p, loops booted_bare !! i = Some (a, p) → p ≠ Rejected).
Proof.
  split; [exact booted_bare_reachable|].
  destruct (only_keys_run Nexus.DEPENDENCIES booted_bare booted_bare_reachable)
    as (Hnames & Hloops & _).
  split; [exact Hnames|exact Hloops].
Defined.

(** [X6] at a table in which WAVE declares the misspelt dependency COER. *)
Lemma undeclared_dependency_blocks_witness :
  obj_get misspelt "WAVE" = Some ["CORE"; "COER"] ∧
  "COER" ∈ ["CORE"; "COER"] ∧
  ("COER" ∉ obj_keys misspelt) ∧
  reachable misspelt (boot_state misspelt always_ready 1 all_scripts) ∧
  "CORE" ∈ snapshot (boot_state misspelt always_ready 1 all_scripts) ∧
  idle "WAVE" (boot_state misspelt always_ready 1 all_scripts).
Proof.
  assert (obj_get misspelt "WAVE" = Some ["CORE"; "COER"]) as Hget
    by reflexivity.
  assert ("COER" ∈ ["CORE"; "COER"]) as Hin by by_evaluation.
  assert ("COER" ∉ obj_keys misspelt) as Hnokey by by_evaluation.
  assert (reachable misspelt (boot_state misspelt always_ready 1 all_scripts))
    as Hreach.
  { apply (reach_boot _ _ always_ready 1 all_scripts _
             (boot_effects misspelt always_ready 1 all_scripts));
      [vm_compute; reflexivity|exact I]. }
  split_and!; try assumption; [by_evaluation|].
  exact (proj1 (undeclared_dependency_blocks misspelt "WAVE" "COER" _ _
                  Hget Hin Hnokey Hreach)).
Defined.

(** [X7] CORE's child exits: WAVE, which depends on CORE, keeps running. *)
Lemma child_survives_other_steps_witness :
  NoDup (obj_keys Nexus.DEPENDENCIES) ∧
  reachable Nexus.DEPENDENCIES booted ∧
  step Nexus.DEPENDENCIES booted core_exit
  = Some (after_core_exit, run_effects Nexus.DEPENDENCIES booted [core_exit]) ∧
  children booted !! 1 = Some "WAVE" ∧
  (∀ code, core_exit ≠ ProcExit 1 code) ∧
  ("CORE" ∉ snapshot after_core_exit) ∧
  children after_core_exit !! 1 = Some "WAVE" ∧
  "WAVE" ∈ snapshot after_core_exit.
Proof.
  assert (step Nexus.DEPENDENCIES booted core_exit
          = Some (after_core_exit,
                  run_effects Nexus.DEPENDENCIES booted [core_exit])) as Hstep
    by (vm_compute; reflexivity).
  assert (children booted !! 1 = Some "WAVE") as Hpid
    by (vm_compute; reflexivity).
  assert (∀ code, core_exit ≠ ProcExit 1 code) as Hother
    by (intros code; discriminate).
  destruct (child_survives_other_steps Nexus.DEPENDENCIES booted after_core_exit
              core_exit _ 1 "WAVE" nexus_keys_distinct booted_reachable
              Hstep Hpid Hother) as (Hchild & Hlive & _).
  split_and!; try assumption;
    [exact nexus_keys_distinct|exact booted_reachable|by_evaluation].
Defined.

(** [X8] CORE's child exits with code 1 and CORE is relaunched under
    handle 9. *)
Lemma exit_then_restart_witness :
  reachable Nexus.DEPENDENCIES booted ∧
  children booted !! 0 = Some "CORE" ∧
  obj_get Nexus.DEPENDENCIES "CORE" = Some [] ∧
  all_deps_started [] (startedAgents booted ∖ {["CORE"]}) = true ∧
  script_of "CORE" ∈ fs booted ∧
  next_pid booted = 9 ∧
  ∃ i s2, loops booted !! i = Some ("CORE", AwaitExit 0) ∧
          children s2 !! 0 = None ∧ children s2 !! next_pid booted = Some "CORE" ∧
          "CORE" ∈ snapshot s2.
Proof.
  assert (children booted !! 0 = Some "CORE") as Hpid
    by (vm_compute; reflexivity).
  assert (obj_get Nexus.DEPENDENCIES "CORE" = Some []) as Hget by reflexivity.
  assert (all_deps_started [] (startedAgents booted ∖ {["CORE"]}) = true)
    as Hall by reflexivity.
  assert (script_of "CORE" ∈ fs booted) as Hscript by by_evaluation.
  destruct (exit_then_restart Nexus.DEPENDENCIES booted 0 (Some 1%N) "CORE" []
              booted_reachable Hpid Hget Hall Hscript)
    as (i & s2 & Hi & _ & Hgone & Hnew & Hlive & _).
  split_and!; try assumption; [exact booted_reachable|vm_compute; reflexivity|].
  exists i, s2. repeat split; assumption.
Defined.



(** [X11] from an empty file system. *)
Lemma module_init_idempotent_witness :
  LOGS_DIR ∈ (module_init ∅).1 ∧ SOCKETS_DIR ∈ (module_init ∅).1 ∧
  module_init (module_init ∅).1
  = ((module_init ∅).1, [ExistsSync LOGS_DIR true; ExistsSync SOCKETS_DIR true]).
Proof.
  destruct (module_init_idempotent ∅) as (_ & Hlogs & Hsock & Hagain).
  split; [exact Hlogs|]. split; [exact Hsock|exact Hagain].
Defined.

(** [X12] with the latch showing up during the third sleep. *)
Lemma start_pm2_leaves_latch_witness :
  16 ≤ 16 ∧
  StartPm2.script None latch_during_third_sleep 16 ∅
  = Some (start_pm2_outcome None latch_during_third_sleep 16 ∅) ∧
  (start_pm2_outcome None latch_during_third_sleep 16 ∅).1.2 = 3 ∧
  ∃ f' n effs,
    StartPm2.script None latch_during_third_sleep 16 ∅ = Some (f', n, effs) ∧
    StartPm2.OLLAMA_LATCH None ∈ f' ∧ n ≤ StartPm2.MAX_RETRIES.
Proof.
  assert (16 ≤ 16) as Hfuel by lia.
  destruct (start_pm2_leaves_latch None latch_during_third_sleep 16 ∅ Hfuel)
    as (f' & n & effs & Hscript & Hlatch & _ & Hn & _).
  split; [exact Hfuel|]. split; [vm_compute; reflexivity|].
  split; [vm_compute; reflexivity|].
  exists f', n, effs. repeat split; assumption.
Defined.


(** [X14] with [HOME] set to [/home/loop] and an API that answers the
    fourth request. *)
Lemma ollama_startup_sets_latch_witness :
  (∀ j, j < 3 → ready_from 3 j = false) ∧ ready_from 3 3 = true ∧ 3 < 4 ∧
  ∃ f' e, OllamaStartup.script "/home/loop" (ready_from 3) 4 ∅ = Some (f', 3, e) ∧
          OLLAMA_LATCH ∈ f'.
Proof.
  assert (∀ j, j < 3 → ready_from 3 j = false) as Hfail.
  { intros j Hj. unfold ready_from. apply bool_decide_eq_false. lia. }
  assert (ready_from 3 3 = true) as Hok by reflexivity.
  assert (3 < 4) as Hfuel by lia.
  destruct (ollama_startup_sets_latch "/home/loop" (ready_from 3) ∅)
    as (Hsets & _ & Hsame).
  destruct (Hsets 3 4 Hfail Hok Hfuel) as (f' & e & Hscript & Hlatch & _).
  split_and!; try assumption. exists f', e. split; [exact Hscript|].
  rewrite <- Hsame. exact Hlatch.
Defined.

(** [X15] at the module's second scenario. *)
Lemma cube_success_cases_witness :
  NexusLogic.success (NexusLogic.evaluateCubeLogic NexusLogic.scenario2) = true ∧
  NexusLogic.CORE NexusLogic.scenario2 = false ∧
  NexusLogic.WAVE NexusLogic.scenario2 = false.
Proof.
  assert (NexusLogic.success (NexusLogic.evaluateCubeLogic NexusLogic.scenario2)
          = true) as Hok by reflexivity.
  split; [exact Hok|].
  destruct (proj1 (cube_success_cases NexusLogic.scenario2) Hok)
    as [Hcore [[Hloop _]|(_ & Hwave & _)]].
  - discriminate Hloop.
  - split; [exact Hcore|exact Hwave].
Defined.

(** [X16] at the module's second scenario: COIN is 11. *)
Lemma cube_output_cases_witness :
  NexusLogic.output (NexusLogic.evaluateCubeLogic NexusLogic.scenario2)
  = Some "NEXUS" ∧
  NexusLogic.evaluateCubeLogic NexusLogic.scenario2
  = NexusLogic.Verdict true "EXECUTION COMPLETE" (Some "NEXUS").
Proof.
  assert (NexusLogic.output (NexusLogic.evaluateCubeLogic NexusLogic.scenario2)
          = Some "NEXUS") as Hout by reflexivity.
  split; [exact Hout|].
  exact (proj1 (proj2 (cube_output_cases NexusLogic.scenario2 "NEXUS")) Hout).
Defined.
